(** * A forwarding HTTP proxy: buffer pool and request lifecycle

    Shallow embedding of [core/buffer_pool.go] and of the proxy engine
    ([NewHttpProxy], [ServeHTTP], [modifyRequest]), followed by the
    properties proved about them.

    Conventions.
    - A Go [error] is represented by its [Error()] text.
    - A Go function returning [(T, error)] returns a [result].
    - A run-time panic is the [Panic] outcome; it is never a [result].
    - [*bytes.Buffer] values are addresses into a store of buffers, so
      that two holders of one pointer see each other's writes. *)

From Stdlib Require Import ZArith Strings.String Strings.Ascii Strings.Byte.
From stdpp Require Import base gmap list strings.

Local Open Scope string_scope.

(** ** Go prelude: errors, results, panics *)

Module Go.

Definition error := string.

Inductive result (A : Type) : Type :=
| Ok (a : A)
| Err (e : error).
Arguments Ok {A} a.
Arguments Err {A} e.

Inductive outcome (A : Type) : Type :=
| Ret (a : A)
| Panic (msg : string).
Arguments Ret {A} a.
Arguments Panic {A} msg.

Definition index_out_of_range : string :=
  "runtime error: index out of range".
Definition nil_dereference : string :=
  "runtime error: invalid memory address or nil pointer dereference".
Definition makeslice_len : string :=
  "runtime error: makeslice: len out of range".

(** [make([]byte, n)]: [n] zero bytes; a negative length panics. *)
Definition make (n : Z) : outcome (list byte) :=
  if (n <? 0)%Z then Panic makeslice_len
  else Ret (replicate (Z.to_nat n) Byte.x00).

(** [strings.Join(elems, sep)]. *)
Fixpoint strings_Join (elems : list string) (sep : string) : string :=
  match elems with
  | [] => ""
  | [x] => x
  | x :: (_ :: _) as rest => x +:+ sep +:+ strings_Join rest sep
  end.

End Go.
Import Go.

(** ** bytes.Buffer, as far as the program uses it *)

Module bytes.

(** [buf] is the slice [b.buf] (its length is [len(b.buf)]), [off] the
    read offset and [capacity] is [cap(b.buf)]. *)
Record Buffer : Type := mkBuffer {
  buf : list byte;
  off : nat;
  capacity : nat
}.

(** [bytes.NewBuffer(s)]: the buffer takes [s] as its initial content. *)
Definition NewBuffer (s : list byte) : Buffer :=
  {| buf := s; off := 0; capacity := length s |}.

(** [b.Len()]: the number of unread bytes. *)
Definition Len (b : Buffer) : nat := length (buf b) - off b.

Definition Cap (b : Buffer) : nat := capacity b.

(** [b.Bytes()]: the unread portion. *)
Definition Bytes (b : Buffer) : list byte := drop (off b) (buf b).

(** [b.Reset()]: [b.buf = b.buf[:0]; b.off = 0]; the backing array, and
    with it the capacity, stays. *)
Definition Reset (b : Buffer) : Buffer :=
  {| buf := []; off := 0; capacity := capacity b |}.

(** [b.Write(p)]: an empty buffer is reset first, then [p] is appended.
    When the backing array is too small it is replaced by a larger one;
    how much larger is the allocator's business, the model keeps the
    least capacity that fits. *)
Definition Write (p : list byte) (b : Buffer) : Buffer :=
  let b0 := if decide (Len b = 0) then Reset b else b in
  {| buf := buf b0 ++ p;
     off := off b0;
     capacity := capacity b0 `max` (length (buf b0) + length p) |}.

End bytes.

(** ** core/buffer_pool.go *)

Module core.

Definition addr := nat.

(** A [*bytes.Buffer]: [None] is the nil pointer. *)
Definition pointer := option addr.

(** [BufferPool] wraps a [sync.Pool] whose [New] closure captured
    [size].  [pool] is the content of the [sync.Pool]: the pointers that
    were put and have neither been handed out nor dropped since. *)
Record BufferPool : Type := mkBufferPool {
  size : Z;
  pool : list addr
}.

(** <<
    func makeBuffer(size int) (b *bytes.Buffer) {
        b = bytes.NewBuffer(make([]byte, size))
        b.Reset()
        return
    }
    >> *)
Definition makeBuffer (size : Z) (h : gmap addr bytes.Buffer)
  : outcome (addr * gmap addr bytes.Buffer) :=
  match make size with
  | Panic msg => Panic msg
  | Ret s =>
      let b := fresh (dom h) in
      let h1 := <[b := bytes.NewBuffer s]> h in
      Ret (b, alter bytes.Reset b h1)
  end.

(** [NewBufferPool(size)]: an empty [sync.Pool] with
    [New = func() { return makeBuffer(size) }]. *)
Definition NewBufferPool (size : Z) : BufferPool :=
  {| size := size; pool := [] |}.

Definition BufferPool1k : BufferPool := NewBufferPool 1024.
Definition BufferPool2k : BufferPool := NewBufferPool 2048.
Definition BufferPool4k : BufferPool := NewBufferPool 4096.
Definition BufferPool8k : BufferPool := NewBufferPool 8192.

(** [p.pool.Get().( *bytes.Buffer)].  Which pooled item [sync.Pool]
    hands out, and whether it hands one out at all, is up to the
    runtime: [pick = Some i] selects the [i]-th pooled pointer when
    there is one; in every other case [New] runs. *)
Definition Get (pick : option nat) (p : BufferPool) (h : gmap addr bytes.Buffer)
  : outcome (addr * BufferPool * gmap addr bytes.Buffer) :=
  match pick ≫= (λ i, pool p !! i ≫= (λ b, Some (i, b))) with
  | Some (i, b) =>
      Ret (b, {| size := size p; pool := delete i (pool p) |}, h)
  | None =>
      match makeBuffer (size p) h with
      | Panic msg => Panic msg
      | Ret (b, h') => Ret (b, p, h')
      end
  end.

(** <<
    func (p *BufferPool) Put(b *bytes.Buffer) {
        if b != nil {
            b.Reset()
            p.pool.Put(b)
        }
    }
    >> *)
Definition Put (b : pointer) (p : BufferPool) (h : gmap addr bytes.Buffer)
  : BufferPool * gmap addr bytes.Buffer :=
  match b with
  | None => (p, h)
  | Some a =>
      ({| size := size p; pool := a :: pool p |}, alter bytes.Reset a h)
  end.

(** *** Clients of one pool

    What callers and the runtime can do to a pool and to the buffers:
    acquire, release, use a buffer they hold, and (the runtime) drop
    pooled items at a collection. *)
Inductive op : Type :=
| Acquire (pick : option nat)
| Release (b : pointer)
| Use (a : addr) (b' : bytes.Buffer)
| Collect (keep : list bool).

Fixpoint select {A : Type} (keep : list bool) (l : list A) : list A :=
  match keep, l with
  | true :: ks, x :: xs => x :: select ks xs
  | false :: ks, _ :: xs => select ks xs
  | _, _ => []
  end.

Definition step (o : op) (p : BufferPool) (h : gmap addr bytes.Buffer)
  : outcome (BufferPool * gmap addr bytes.Buffer) :=
  match o with
  | Acquire pick =>
      match Get pick p h with
      | Panic msg => Panic msg
      | Ret (_, p', h') => Ret (p', h')
      end
  | Release b => Ret (Put b p h)
  | Use a b' => Ret (p, <[a := b']> h)
  | Collect keep => Ret ({| size := size p; pool := select keep (pool p) |}, h)
  end.

(** [play ops p h]: the state after [ops], whatever they are. *)
Fixpoint play (ops : list op) (p : BufferPool) (h : gmap addr bytes.Buffer)
  : outcome (BufferPool * gmap addr bytes.Buffer) :=
  match ops with
  | [] => Ret (p, h)
  | o :: rest =>
      match step o p h with
      | Ret (p', h') => play rest p' h'
      | Panic msg => Panic msg
      end
  end.

(** *** Callers that keep to their buffers

    A caller holds a buffer from the [Get] that handed it out until it
    releases it; the buffers that are live before the pool is first used
    are the callers' own.  The rule: only a buffer that is held is used
    or released.  So no buffer is released twice without a [Get] in
    between, and none is used after its release. *)
Definition owners (h : gmap addr bytes.Buffer) : list addr :=
  (map_to_list h).*1.

Definition allowed (o : op) (held : list addr) : bool :=
  match o with
  | Acquire _ | Collect _ | Release None => true
  | Release (Some a) | Use a _ => bool_decide (a ∈ held)
  end.

(** The buffers held after [o]. *)
Definition holding (o : op) (p : BufferPool) (h : gmap addr bytes.Buffer)
    (held : list addr) : list addr :=
  match o with
  | Acquire pick =>
      match Get pick p h with
      | Ret (a, _, _) => a :: held
      | Panic _ => held
      end
  | Release (Some a) => filter (λ x, x ≠ a) held
  | Release None | Use _ _ | Collect _ => held
  end.

(** [run ops p h held]: the state after [ops] and the buffers then held,
    [None] when an operation was not [allowed] or panicked. *)
Fixpoint run (ops : list op) (p : BufferPool) (h : gmap addr bytes.Buffer)
    (held : list addr)
  : option (BufferPool * gmap addr bytes.Buffer * list addr) :=
  match ops with
  | [] => Some (p, h, held)
  | o :: rest =>
      if allowed o held then
        match step o p h with
        | Ret (p', h') => run rest p' h' (holding o p h held)
        | Panic _ => None
        end
      else None
  end.

End core.

(** ** net/textproto and net/http, as far as the program uses them *)

Module textproto.

Definition between (lo hi : nat) (c : ascii) : bool :=
  ((lo <=? nat_of_ascii c) && (nat_of_ascii c <=? hi))%nat.

Definition isLower (c : ascii) : bool := between 97 122 c.
Definition isUpper (c : ascii) : bool := between 65 90 c.

(** The bytes allowed in a header field name (RFC 7230 token). *)
Definition validHeaderFieldByte (c : ascii) : bool :=
  isLower c || isUpper c || between 48 57 c
  || bool_decide (c ∈ list_ascii_of_string "!#$%&'*+-.^_`|~").

Fixpoint canonical (upper : bool) (s : string) : string :=
  match s with
  | EmptyString => EmptyString
  | String c rest =>
      let c' :=
        if upper && isLower c then ascii_of_nat (nat_of_ascii c - 32)
        else if negb upper && isUpper c then ascii_of_nat (nat_of_ascii c + 32)
        else c in
      String c' (canonical (bool_decide (c' = "-"%char)) rest)
  end.

(** [textproto.CanonicalMIMEHeaderKey]: the first letter and every
    letter after a hyphen in upper case, the others in lower case; a
    key holding a byte that is not allowed in a field name is returned
    as it is. *)
Definition CanonicalMIMEHeaderKey (s : string) : string :=
  if forallb validHeaderFieldByte (list_ascii_of_string s)
  then canonical true s else s.

End textproto.

Module http.

Definition StatusOK : Z := 200.
Definition StatusInternalServerError : Z := 500.

(** [http.Header] on the reading side: the entries of the map, in the
    order in which a [range] over it visits them. *)
Definition Header := list (string * list string).

(** [h.Get(key)]: the first value stored under the canonical form of
    [key], the empty string when there is none. *)
Definition Header_Get (h : Header) (key : string) : string :=
  match list_find (λ kv, kv.1 = textproto.CanonicalMIMEHeaderKey key) h with
  | Some (_, (_, v :: _)) => v
  | _ => ""
  end.

Record ConnectionState : Type := { HandshakeComplete : bool }.

(** [url.URL]; [UHost] is its field [Host], the authority. *)
Record URL : Type := mkURL {
  Scheme : string;
  UHost : string;
  Path : string;
  RawQuery : string
}.

(** [u.RequestURI()] for a URL with a path and an optional query. *)
Definition URL_RequestURI (u : URL) : string :=
  (if decide (Path u = "") then "/" else Path u)
  +:+ (if decide (RawQuery u = "") then "" else "?" +:+ RawQuery u).

(** [http.Request]; [rURL] and [rHeader] are its fields [URL] and
    [Header], [Host] is the host the client asked for. *)
Record Request : Type := mkRequest {
  Method : string;
  rURL : URL;
  rHeader : Header;
  Host : string;
  RequestURI : string;
  TLS : option ConnectionState
}.

(** An upstream response; [Header_] is its field [Header], and [Body]
    lists the chunks that successive reads of [response.Body] deliver
    before end of file. *)
Record Response : Type := mkResponse {
  StatusCode : Z;
  Header_ : Header;
  Body : list (list byte)
}.

(** What a handler has written through an [http.ResponseWriter]: the
    header map [w.Header()], the status line once it is written, and the
    body bytes.  The server sends it on when the handler returns; what
    becomes of it when the handler panics is the server's business and
    is not modelled. *)
Record ResponseWriter : Type := mkResponseWriter {
  header : gmap string (list string);
  status : option Z;
  body : list byte
}.

Definition NewRecorder : ResponseWriter :=
  {| header := ∅; status := None; body := [] |}.

(** [w.Header().Set(key, value)]. *)
Definition Header_Set (key value : string) (w : ResponseWriter) : ResponseWriter :=
  {| header := <[textproto.CanonicalMIMEHeaderKey key := [value]]> (header w);
     status := status w; body := body w |}.

Definition Header_Del (key : string) (w : ResponseWriter) : ResponseWriter :=
  {| header := delete (textproto.CanonicalMIMEHeaderKey key) (header w);
     status := status w; body := body w |}.

(** [w.WriteHeader(code)]: only the first call counts. *)
Definition WriteHeader (code : Z) (w : ResponseWriter) : ResponseWriter :=
  {| header := header w;
     status := match status w with None => Some code | s => s end;
     body := body w |}.

(** [w.Write(p)]: an implicit [WriteHeader(200)], then the bytes. *)
Definition Write (p : list byte) (w : ResponseWriter) : ResponseWriter :=
  let w1 := WriteHeader StatusOK w in
  {| header := header w1; status := status w1; body := body w1 ++ p |}.

(** [http.Error(w, error, code)]: a plain-text reply whose body is the
    line [error]. *)
Definition Error (error : string) (code : Z) (w : ResponseWriter) : ResponseWriter :=
  let w1 := Header_Del "Content-Length" w in
  let w2 := Header_Set "Content-Type" "text/plain; charset=utf-8" w1 in
  let w3 := Header_Set "X-Content-Type-Options" "nosniff" w2 in
  Write (list_byte_of_string (error +:+ String "010" "")) (WriteHeader code w3).

End http.

(** ** The external collaborators *)

Module resolver.
(** The host resolver: [Get(host)] returns the usable addresses. *)
Record Resolver : Type := { Get : string → result (list string) }.
End resolver.

Module exchange.

(** Modelled from the spec: [core.RequestHeader] and its setters are
    not among the sources.  The spec's Request Snapshot holds the
    destination host, the request target, the method, the user-agent
    string, the content-type, a close-connection flag and a
    transport-security flag; a setter stores its argument (or raises
    its flag) and touches nothing else. *)
Record RequestHeader : Type := mkRequestHeader {
  host : string;
  requestURI : string;
  method : string;
  userAgent : string;
  contentType : string;
  connectionClose : bool;
  isHTTPS : bool
}.

Definition zeroRequestHeader : RequestHeader :=
  mkRequestHeader "" "" "" "" "" false false.

Definition SetHost (v : string) (h : RequestHeader) :=
  mkRequestHeader v (requestURI h) (method h) (userAgent h) (contentType h)
    (connectionClose h) (isHTTPS h).
Definition SetRequestURI (v : string) (h : RequestHeader) :=
  mkRequestHeader (host h) v (method h) (userAgent h) (contentType h)
    (connectionClose h) (isHTTPS h).
Definition SetMethod (v : string) (h : RequestHeader) :=
  mkRequestHeader (host h) (requestURI h) v (userAgent h) (contentType h)
    (connectionClose h) (isHTTPS h).
Definition SetUserAgent (v : string) (h : RequestHeader) :=
  mkRequestHeader (host h) (requestURI h) (method h) v (contentType h)
    (connectionClose h) (isHTTPS h).
Definition SetContentType (v : string) (h : RequestHeader) :=
  mkRequestHeader (host h) (requestURI h) (method h) (userAgent h) v
    (connectionClose h) (isHTTPS h).
Definition SetConnectionClose (h : RequestHeader) :=
  mkRequestHeader (host h) (requestURI h) (method h) (userAgent h)
    (contentType h) true (isHTTPS h).
Definition SetHTTPS (h : RequestHeader) :=
  mkRequestHeader (host h) (requestURI h) (method h) (userAgent h)
    (contentType h) (connectionClose h) true.

(** Modelled from the spec: [core.ResponseHeader] is not among the
    sources; the Response Snapshot holds the content-type. *)
Record ResponseHeader : Type := mkResponseHeader {
  responseContentType : string
}.

(** The values an [io.Reader] variable of [ServeHTTP] can hold.
    [nilReader] is the nil interface; [GzipReader None] is an interface
    holding the nil [*gzip.Reader]. *)
Inductive Reader : Type :=
| nilReader
| BufferReader (b : core.addr)
| BrotliReader (b : core.addr)
| GzipReader (z : option core.addr).

(** [core.Context], built by [ServeHTTP] as a struct literal. *)
Record Context : Type := mkContext {
  ctxRequestHeader : RequestHeader;
  ctxResponseHeader : ResponseHeader;
  ResponseBody : Reader
}.

End exchange.

Module executor.
(** The processing handler.  What it does with the exchange is its own
    business; the engine only sees whether it pulls bytes through
    [ctx.ResponseBody]: [None] when it leaves the reader alone,
    [Some n] when it reads [n] bytes through it. *)
Record Execute : Type := { Handler : exchange.Context → option nat }.
End executor.

(** ** The proxy engine *)

Module proxy.

Import exchange.

Inductive Level : Type := Debug | Info | Error.

Inductive Field : Type :=
| FString (key value : string)
| FStrings (key : string) (values : list string)
| FBool (key : string) (value : bool)
| FRequest (key : string) (req : http.Request).

(** What a run leaves behind besides what it wrote to the response
    writer. *)
Inductive Event : Type :=
| EvLog (level : Level) (msg : string) (fields : list Field)
| EvGet (b : core.addr)
| EvPut (b : core.addr)
| EvDo (req : http.Request)
| EvClose
| EvHandler (ctx : Context) (h : gmap core.addr bytes.Buffer).

(** The state a request runs in: what has been written to the response
    writer (the [http.ResponseWriter] that [ServeHTTP] receives as [w]), the
    store of buffers, the content of the [sync.Pool] inside the
    process-wide [BufferPool4k], and the events so far, oldest first. *)
Record World : Type := mkWorld {
  w : http.ResponseWriter;
  heap : gmap core.addr bytes.Buffer;
  pooled : list core.addr;
  trace : list Event
}.

Definition BufferPool4k (σ : World) : core.BufferPool :=
  {| core.size := core.size core.BufferPool4k; core.pool := pooled σ |}.

Record HttpProxy : Type := mkHttpProxy {
  execute : executor.Execute;
  resolver : resolver.Resolver;
  buffer : core.pointer;
  log : string
}.

(** *** State and panics *)

Definition M (A : Type) : Type := World → outcome A * World.

Definition ret {A} (a : A) : M A := λ σ, (Ret a, σ).
Definition panic {A} (msg : string) : M A := λ σ, (Panic msg, σ).
Definition bind {A B} (m : M A) (k : A → M B) : M B :=
  λ σ, match m σ with
       | (Ret a, σ') => k a σ'
       | (Panic msg, σ') => (Panic msg, σ')
       end.

Notation "x <~ m ;; k" := (bind m (λ x, k))
  (at level 100, m at next level, right associativity).
Notation "m ;;; k" := (bind m (λ _, k))
  (at level 100, right associativity).

(** [defer f(); body]: [f] runs when [body] returns and when it panics. *)
Definition defer {A} (f : World → World) (body : M A) : M A :=
  λ σ, let '(o, σ') := body σ in (o, f σ').

Definition emit (e : Event) : M unit :=
  λ σ, (Ret tt, mkWorld (w σ) (heap σ) (pooled σ) (trace σ ++ [e])).

Definition respond (f : http.ResponseWriter → http.ResponseWriter) : M unit :=
  λ σ, (Ret tt, mkWorld (f (w σ)) (heap σ) (pooled σ) (trace σ)).

Definition store (f : gmap core.addr bytes.Buffer → gmap core.addr bytes.Buffer)
  : M unit :=
  λ σ, (Ret tt, mkWorld (w σ) (f (heap σ)) (pooled σ) (trace σ)).

Definition close_body (σ : World) : World :=
  mkWorld (w σ) (heap σ) (pooled σ) (trace σ ++ [EvClose]).

(** *** Readers and writers *)

(** [b.Next(n)] on the buffer behind a reader: [n] bytes are consumed,
    or all of them when fewer are left. *)
Definition consume (n : nat) (b : bytes.Buffer) : bytes.Buffer :=
  {| bytes.buf := bytes.buf b;
     bytes.off := (bytes.off b + n) `min` length (bytes.buf b);
     bytes.capacity := bytes.capacity b |}.

(** Reading [n] bytes through a reader.  A method call on the nil
    interface, and [Read] on the nil [*gzip.Reader], dereference nil. *)
Definition io_Read (n : nat) (r : Reader) : M unit :=
  match r with
  | nilReader | GzipReader None => panic nil_dereference
  | BufferReader b | BrotliReader b | GzipReader (Some b) =>
      store (alter (consume n) b)
  end.

(** [io.MultiWriter(w, buffer).Write(p)]: [p] goes to the response writer
    first,
    then to the buffer. *)
Definition MultiWriter_Write (b : core.addr) (p : list byte) : M unit :=
  respond (http.Write p) ;;;
  store (alter (bytes.Write p) b).

(** [io.Copy(dst, src)]: each chunk read from [src] is written to
    [dst], until end of file. *)
Fixpoint io_Copy (dst : list byte → M unit) (src : list (list byte)) : M unit :=
  match src with
  | [] => ret tt
  | chunk :: rest => dst chunk ;;; io_Copy dst rest
  end.

Section Engine.

(** The upstream origin, seen through [client.Do]. *)
Variable client_Do : http.Request → result http.Response.

(** [gzip.NewReader] applied to a buffer with the given unread bytes.
    It reads the stream header straight out of the buffer, whether it
    then accepts the header or not: the result is the number of bytes it
    has read and its verdict, [None] when the header is accepted, the
    error otherwise. *)
Variable gzip_NewReader : list byte → nat * option error.

(** The runtime's choice at a [sync.Pool.Get], see [core.Get]. *)
Variable sched : World → option nat.

Definition BufferPool4k_Get : M core.addr :=
  λ σ, match core.Get (sched σ) (BufferPool4k σ) (heap σ) with
       | Panic msg => (Panic msg, σ)
       | Ret (b, p', h') =>
           (Ret b, mkWorld (w σ) h' (core.pool p') (trace σ ++ [EvGet b]))
       end.

Definition BufferPool4k_Put (b : core.pointer) : M unit :=
  λ σ, let '(p', h') := core.Put b (BufferPool4k σ) (heap σ) in
       (Ret tt,
        mkWorld (w σ) h' (core.pool p')
          (trace σ ++ match b with Some a => [EvPut a] | None => [] end)).

(** <<
    func NewHttpProxy(resolver, execute) *HttpProxy {
        p := &HttpProxy{execute: execute, resolver: resolver,
            buffer: BufferPool4k.Get(), log: log.Logger("http")}
        return p
    }
    >> *)
Definition NewHttpProxy (resolver : resolver.Resolver)
    (execute : executor.Execute) : M HttpProxy :=
  b <~ BufferPool4k_Get ;;
  ret {| execute := execute; resolver := resolver;
         buffer := Some b; log := "http" |}.

(** [r.Clone(ctx)] is a deep copy; on immutable values it is the
    identity, and the original stays as it was whatever is done to
    the copy. *)
Definition Clone (r : http.Request) : http.Request := r.

Definition Errorf_resolver (host : string) (err : error) : error :=
  "domain " +:+ host +:+ " resolver err: " +:+ err.

Definition modifyRequest (p : HttpProxy) (r : http.Request)
  : M (result http.Request) :=
  let req := Clone r in
  match resolver.Get (resolver p) (http.Host req) with
  | Err err => ret (Err (Errorf_resolver (http.Host req) err))
  | Ok ips =>
      let scheme :=
        match http.TLS req with
        | None => "http"
        | Some _ => "https"
        end in
      emit (EvLog Debug "resolver request host"
              [FString "host" (http.Host req); FStrings "ip" ips]) ;;;
      match ips !! 0 with
      | None => panic index_out_of_range
      | Some ip =>
          let u := http.rURL req in
          ret (Ok {| http.Method := http.Method req;
                     http.rURL := {| http.Scheme := scheme;
                                     http.UHost := ip;
                                     http.Path := http.Path u;
                                     http.RawQuery := http.RawQuery u |};
                     http.rHeader := http.rHeader req;
                     http.Host := http.Host req;
                     http.RequestURI := "";
                     http.TLS := http.TLS req |})
      end
  end.

(** The body of the [range response.Header] loop for one entry. *)
Definition relay_header (kv : string * list string) : M unit :=
  let '(k, v) := kv in
  if decide (length v < 2) then
    match v !! 0 with
    | None => panic index_out_of_range
    | Some v0 => respond (http.Header_Set k v0)
    end
  else respond (http.Header_Set k (strings_Join v "")).

Fixpoint relay_headers (h : http.Header) : M unit :=
  match h with
  | [] => ret tt
  | kv :: rest => relay_header kv ;;; relay_headers rest
  end.

(** The [switch response.Header.Get("Content-Encoding")]. *)
Definition decode (encoding : string) (b : core.addr) : M Reader :=
  if decide (encoding = "br") then ret (BrotliReader b)
  else if decide (encoding = "gzip") then
    λ σ, let '(n, verdict) :=
           gzip_NewReader (from_option bytes.Bytes [] (heap σ !! b)) in
         (store (alter (consume n) b) ;;;
          match verdict with
          | None => ret (GzipReader (Some b))
          | Some err =>
              emit (EvLog Error "gzip.NewReader" [FString "error" err]) ;;;
              ret (GzipReader None)
          end) σ
  else ret (BufferReader b).

Definition snapshot (req : http.Request) : RequestHeader :=
  let h := zeroRequestHeader in
  let h := SetHost (http.Host req) h in
  let h := SetRequestURI (http.URL_RequestURI (http.rURL req)) h in
  let h := SetMethod (http.Method req) h in
  let h := SetUserAgent (http.Header_Get (http.rHeader req) "User-Agent") h in
  let h := SetContentType (http.Header_Get (http.rHeader req) "Content-Type") h in
  let h := if decide (http.Header_Get (http.rHeader req) "Connection" = "close")
           then SetConnectionClose h else h in
  if decide (http.Scheme (http.rURL req) = "https") then SetHTTPS h else h.

Definition invoke (e : executor.Execute) (ctx : Context) : M unit :=
  (λ σ, emit (EvHandler ctx (heap σ)) σ) ;;;
  match executor.Handler e ctx with
  | None => ret tt
  | Some n => io_Read n (ResponseBody ctx)
  end.

Definition fail (msg : string) (err : error) : M unit :=
  emit (EvLog Error msg [FString "error" err]) ;;;
  respond (http.Error err http.StatusInternalServerError).

Definition ServeHTTP (p : HttpProxy) (r : http.Request) : M unit :=
  res <~ modifyRequest p r ;;
  match res with
  | Err err => fail "modify request" err
  | Ok req =>
      emit (EvDo req) ;;;
      match client_Do req with
      | Err err => fail "client do request" err
      | Ok response =>
          defer close_body (
            relay_headers (http.Header_ response) ;;;
            buffer <~ BufferPool4k_Get ;;
            io_Copy (MultiWriter_Write buffer) (http.Body response) ;;;
            reader <~ decode (http.Header_Get (http.Header_ response)
                                "Content-Encoding") buffer ;;
            let reqHeader := snapshot req in
            let resHeader :=
              mkResponseHeader
                (http.Header_Get (http.Header_ response) "Content-Type") in
            let proxyCtx := mkContext reqHeader resHeader reader in
            invoke (execute p) proxyCtx ;;;
            emit (EvLog Debug "origin request header" [FRequest "req" req]) ;;;
            emit (EvLog Info "proxyCtx"
                    [FBool "https" (isHTTPS reqHeader);
                     FString "Content-Type" (responseContentType resHeader);
                     FString "host" (host reqHeader);
                     FString "method" (method reqHeader);
                     FString "url" (requestURI reqHeader)]) ;;;
            BufferPool4k_Put (Some buffer))
      end
  end.

(** Draining a reader in store [h]: what a consumer that reads to the
    end obtains.  The decompressors are left abstract; [gunzip] is
    applied to what is left in the buffer, that is to what follows the
    header that [gzip.NewReader] has read. *)
Variable gunzip unbrotli : list byte → list byte.


End Engine.

End proxy.

(** ** Concrete collaborators, used to run the engine on examples *)

Module fixture.

Import proxy.

(** Resolves [example.com] to two addresses, [empty.example] to none
    (without an error) and fails for every other host. *)
Definition names : resolver.Resolver :=
  {| resolver.Get := λ hostname,
       if decide (hostname = "example.com")
       then Ok ["10.0.0.1:80"; "10.0.0.2:80"]
       else if decide (hostname = "empty.example") then Ok []
       else Err "no such host" |}.

Definition idle : executor.Execute := {| executor.Handler := λ _, None |}.
Definition greedy : executor.Execute := {| executor.Handler := λ _, Some 1 |}.

Definition payload : list (list byte) :=
  [[Byte.x68; Byte.x65]; [Byte.x6c; Byte.x6c; Byte.x6f]].

(** An origin that answers every request with [payload], declaring the
    given content encoding and a two-valued [X-Trace] header. *)
Definition answer (encoding : string) : http.Response :=
  {| http.StatusCode := 200;
     http.Header_ := [("Content-Encoding", [encoding]);
                      ("X-Trace", ["a"; "b"]);
                      ("Content-Type", ["text/plain"])];
     http.Body := payload |}.

Definition origin (encoding : string) (req : http.Request)
  : result http.Response :=
  Ok (answer encoding).

(** [gzip.NewReader] on headers without optional fields.  It reads ten
    bytes, or what there is when there are fewer, which is an error;
    the first three must be the magic bytes and the deflate method.  A
    header that announces optional fields is not parsed by this stand-in
    and is refused. *)
Definition gzip_header (s : list byte) : nat * option error :=
  if decide (length s = 0) then (0, Some "EOF")
  else if decide (length s < 10) then (length s, Some "unexpected EOF")
  else match s with
       | Byte.x1f :: Byte.x8b :: Byte.x08 :: Byte.x00 :: _ => (10, None)
       | Byte.x1f :: Byte.x8b :: Byte.x08 :: _ =>
           (10, Some "gzip: optional header fields")
       | _ => (10, Some "gzip: invalid header")
       end.

Definition first_pooled (σ : World) : option nat := Some 0.

Definition boot : World :=
  {| w := http.NewRecorder; heap := ∅; pooled := []; trace := [] |}.

Definition inbound (hostname : string) (tls : option http.ConnectionState)
  : http.Request :=
  {| http.Method := "GET";
     http.rURL := {| http.Scheme := ""; http.UHost := "";
                     http.Path := "/index"; http.RawQuery := "" |};
     http.rHeader := [("User-Agent", ["curl/8"])];
     http.Host := hostname;
     http.RequestURI := "/index";
     http.TLS := tls |}.

(** What the adapter is expected to make of [inbound "example.com"]. *)
Definition adapted (tls : option http.ConnectionState) : http.Request :=
  {| http.Method := "GET";
     http.rURL := {| http.Scheme := match tls with
                                    | Some _ => "https"
                                    | None => "http"
                                    end;
                     http.UHost := "10.0.0.1:80";
                     http.Path := "/index"; http.RawQuery := "" |};
     http.rHeader := [("User-Agent", ["curl/8"])];
     http.Host := "example.com";
     http.RequestURI := "";
     http.TLS := tls |}.

Definition front : HttpProxy :=
  {| execute := idle; resolver := names; buffer := None; log := "http" |}.

(** An origin that answers every request with the given response, and
    one that cannot be reached. *)
Definition reply (response : http.Response) (req : http.Request)
  : result http.Response :=
  Ok response.

Definition unreachable (req : http.Request) : result http.Response :=
  Err "dial tcp 10.0.0.1:80: connect: connection refused".



(** The answer of [answer "identity"] under another status code. *)
Definition not_found : http.Response :=
  {| http.StatusCode := 404;
     http.Header_ := http.Header_ (answer "identity");
     http.Body := http.Body (answer "identity") |}.

(** A response whose second header has no value at all. *)
Definition valueless : http.Response :=
  {| http.StatusCode := 200;
     http.Header_ := [("X-Trace", ["a"]); ("X-Empty", []); ("X-Late", ["z"])];
     http.Body := payload |}.

(** A proxy whose handler reads the body. *)
Definition reading_front : HttpProxy :=
  {| execute := greedy; resolver := names; buffer := None; log := "http" |}.

End fixture.
(** ** Vocabulary of the properties *)

Module vocabulary.

Import proxy.

(** Every pointer resting in the pool is live and its buffer is empty. *)
Definition pool_ok (p : core.BufferPool) (h : gmap core.addr bytes.Buffer)
  : Prop :=
  ∀ a, a ∈ core.pool p → ∃ b, h !! a = Some b ∧ bytes.Len b = 0.

(** The pool and the callers keep apart: what rests in the pool is live,
    empty and listed once, and what a caller holds is live and not in
    the pool. *)
Definition pool_in_order (p : core.BufferPool)
    (h : gmap core.addr bytes.Buffer) (held : list core.addr) : Prop :=
  pool_ok p h ∧ NoDup (core.pool p)
  ∧ ∀ a, a ∈ held → is_Some (h !! a) ∧ a ∉ core.pool p.

(** The values of one header, run together without a separator. *)
Definition glued (v : list string) : string := foldr String.append "" v.

(** The single value under which the engine re-emits a header. *)
Definition joined (v : list string) : string :=
  if decide (length v < 2) then default "" (v !! 0) else strings_Join v "".

(** The response writer after the header loop has run over [h]. *)
Definition relayed (h : http.Header) (rw : http.ResponseWriter)
  : http.ResponseWriter :=
  foldl (λ acc kv, http.Header_Set kv.1 (joined kv.2) acc) rw h.

(** The response writer, and a buffer, after the chunks were written. *)
Definition sent (chunks : list (list byte)) (rw : http.ResponseWriter)
  : http.ResponseWriter :=
  foldl (λ acc chunk, http.Write chunk acc) rw chunks.

Definition filled (chunks : list (list byte)) (b : bytes.Buffer)
  : bytes.Buffer :=
  foldl (λ acc chunk, bytes.Write chunk acc) b chunks.

(** The reader the content-encoding switch selects over buffer [b]
    holding [data]. *)
Definition selected (gzip_NewReader : list byte → nat * option error)
    (encoding : string) (data : list byte) (b : core.addr)
  : exchange.Reader :=
  if decide (encoding = "br") then exchange.BrotliReader b
  else if decide (encoding = "gzip") then
    match (gzip_NewReader data).2 with
    | None => exchange.GzipReader (Some b)
    | Some _ => exchange.GzipReader None
    end
  else exchange.BufferReader b.

(** The store after the switch: on the gzip branch the buffer at [b] has
    lost the bytes that [gzip.NewReader] read, on the others the store
    is as it was. *)
Definition touched (gzip_NewReader : list byte → nat * option error)
    (encoding : string) (data : list byte) (b : core.addr)
    (h : gmap core.addr bytes.Buffer) : gmap core.addr bytes.Buffer :=
  if decide (encoding = "gzip")
  then alter (consume (gzip_NewReader data).1) b h
  else h.

(** What the switch logs: the error of a refused gzip header. *)
Definition decode_log (gzip_NewReader : list byte → nat * option error)
    (encoding : string) (data : list byte) : list Event :=
  if decide (encoding = "gzip") then
    match (gzip_NewReader data).2 with
    | Some err => [EvLog Error "gzip.NewReader" [FString "error" err]]
    | None => []
    end
  else [].

(** Readers on which [Read] dereferences nil. *)
Definition unreadable (r : exchange.Reader) : bool :=
  match r with
  | exchange.nilReader | exchange.GzipReader None => true
  | _ => false
  end.

(** The handler pulls bytes through a reader that cannot be read. *)
Definition handler_panics (e : executor.Execute) (ctx : exchange.Context)
  : bool :=
  match executor.Handler e ctx with
  | Some _ => unreadable (exchange.ResponseBody ctx)
  | None => false
  end.

(** The unread bytes of the buffer at [b], none when [b] is not live. *)
Definition unread (h : gmap core.addr bytes.Buffer) (b : core.addr)
  : list byte :=
  from_option bytes.Bytes [] (h !! b).

(** The two log entries that follow the handler. *)
Definition epilogue (req : http.Request) (ctx : exchange.Context)
  : list Event :=
  [EvLog Debug "origin request header" [FRequest "req" req];
   EvLog Info "proxyCtx"
     [FBool "https" (exchange.isHTTPS (exchange.ctxRequestHeader ctx));
      FString "Content-Type"
        (exchange.responseContentType (exchange.ctxResponseHeader ctx));
      FString "host" (exchange.host (exchange.ctxRequestHeader ctx));
      FString "method" (exchange.method (exchange.ctxRequestHeader ctx));
      FString "url" (exchange.requestURI (exchange.ctxRequestHeader ctx))]].

(** The buffer a reader draws from, if any. *)
Definition behind (r : exchange.Reader) : option core.addr :=
  match r with
  | exchange.BufferReader b | exchange.BrotliReader b
  | exchange.GzipReader (Some b) => Some b
  | exchange.nilReader | exchange.GzipReader None => None
  end.

(** The pool of a world is in order: what rests in it is live, empty and
    listed once. *)
Definition world_ok (σ : World) : Prop :=
  pool_ok (BufferPool4k σ) (heap σ) ∧ NoDup (pooled σ).

(** The worlds the program can be in: the one it starts in, and those
    that constructing a proxy or serving a request lead to, whatever the
    origin, the gzip check and the runtime do. *)
Inductive served : World → Prop :=
| served_boot rw : served (mkWorld rw ∅ [] [])
| served_new sched res exe σ :
    served σ → served (snd (NewHttpProxy sched res exe σ))
| served_request client_Do gzip_NewReader sched p r rw σ :
    served σ →
    served (snd (ServeHTTP client_Do gzip_NewReader sched p r
                   (mkWorld rw (heap σ) (pooled σ) (trace σ)))).

(** The number of acquisitions and of releases of [b] in a trace. *)
Definition is_get (b : core.addr) (e : Event) : bool :=
  match e with EvGet b' => bool_decide (b' = b) | _ => false end.
Definition is_put (b : core.addr) (e : Event) : bool :=
  match e with EvPut b' => bool_decide (b' = b) | _ => false end.
Definition acquisitions (b : core.addr) (t : list Event) : nat :=
  length (filter (λ e, is_get b e) t).
Definition releases (b : core.addr) (t : list Event) : nat :=
  length (filter (λ e, is_put b e) t).

(** The number of upstream calls and of handler invocations in a trace. *)
Definition is_do (e : Event) : bool :=
  match e with EvDo _ => true | _ => false end.
Definition is_handler (e : Event) : bool :=
  match e with EvHandler _ _ => true | _ => false end.
Definition dispatches (t : list Event) : nat :=
  length (filter (λ e, is_do e) t).
Definition invocations (t : list Event) : nat :=
  length (filter (λ e, is_handler e) t).

(** The headers that come before the first one without a value. *)
Fixpoint leading (h : http.Header) : http.Header :=
  match h with
  | [] => []
  | (k, v) :: rest => if decide (v = []) then [] else (k, v) :: leading rest
  end.

(** A step that only adds events to the trace, none of them an upstream
    call, on every outcome. *)
Definition appends_no_dispatch {A : Type} (m : M A) : Prop :=
  ∀ σ, ∃ t : list Event,
    trace (m σ).2 = (trace σ ++ t)%list ∧ dispatches t = 0.

(** [later σ0 σ]: the program gets from world [σ0] to world [σ] by
    constructing proxies and serving requests, each request with a
    response writer of its own. *)
Inductive later (σ0 : World) : World → Prop :=
| later_now : later σ0 σ0
| later_new sched res exe σ :
    later σ0 σ → later σ0 (snd (NewHttpProxy sched res exe σ))
| later_request client_Do gzip_NewReader sched p r rw σ :
    later σ0 σ →
    later σ0 (snd (ServeHTTP client_Do gzip_NewReader sched p r
                     (mkWorld rw (heap σ) (pooled σ) (trace σ)))).

(** A buffer that someone holds: live, and not resting in the pool. *)
Definition held (a : core.addr) (σ : World) : Prop :=
  is_Some (heap σ !! a) ∧ a ∉ pooled σ.

End vocabulary.
(** * Properties *)

(** ** The buffer pool *)

Section BufferPoolFacts.

Import core.
Implicit Types (h : gmap addr bytes.Buffer) (p : BufferPool) (a : addr).

Import vocabulary.

Lemma Len_Reset b : bytes.Len (bytes.Reset b) = 0.
Proof. reflexivity. Qed.

Lemma Cap_Reset b : bytes.Cap (bytes.Reset b) = bytes.Cap b.
Proof. reflexivity. Qed.

Lemma Len_NewBuffer s : bytes.Len (bytes.NewBuffer s) = length s.
Proof. unfold bytes.Len; simpl; lia. Qed.

Lemma select_elem_of {A} (keep : list bool) (l : list A) x :
  x ∈ select keep l → x ∈ l.
Proof.
  revert l; induction keep as [|k ks IH]; intros [|y l]; simpl;
    try (intros Hx; by apply elem_of_nil in Hx).
  - by destruct k; intros Hx; apply elem_of_nil in Hx.
  - destruct k; [|by right; apply IH].
    intros [->|Hx]%elem_of_cons; [by left|by right; apply IH].
Qed.

Lemma makeBuffer_fresh sz h :
  (0 ≤ sz)%Z →
  ∃ a b, makeBuffer sz h = Ret (a, <[a := b]> h) ∧ h !! a = None
         ∧ bytes.Len b = 0 ∧ bytes.Cap b = Z.to_nat sz.
Proof.
  intros Hsz. unfold makeBuffer, make.
  destruct (Z.ltb_spec sz 0) as [?|_]; [lia|].
  exists (fresh (dom h)), (bytes.Reset (bytes.NewBuffer (replicate (Z.to_nat sz) Byte.x00))).
  rewrite alter_insert_eq. split_and!; try done.
  - apply not_elem_of_dom, is_fresh.
  - unfold bytes.Cap; simpl. by rewrite length_replicate.
Qed.

(** What [Get] returns, read off its two branches. *)
Lemma Get_cases pick p h :
  (0 ≤ size p)%Z →
  ∃ a p' h', Get pick p h = Ret (a, p', h') ∧ size p' = size p ∧
    ((∃ i, pool p !! i = Some a ∧ p' = mkBufferPool (size p) (delete i (pool p))
           ∧ h' = h)
     ∨ (∃ b, p' = p ∧ h' = <[a := b]> h ∧ h !! a = None
             ∧ bytes.Len b = 0 ∧ bytes.Cap b = Z.to_nat (size p))).
Proof.
  intros Hsz. unfold Get.
  destruct (pick ≫= _) as [[i a]|] eqn:Hpick.
  - destruct pick as [j|]; simpl in Hpick; [|done].
    destruct (pool p !! j) as [a'|] eqn:Hj; simpl in Hpick; [|done].
    injection Hpick as <- <-.
    eexists _, _, _; split_and!; [done..|]. left; eauto.
  - destruct (makeBuffer_fresh (size p) h Hsz) as (a & b & -> & ? & ? & ?).
    eexists _, _, _; split_and!; [done..|]. right; eauto 10.
Qed.

Lemma Get_pool_ok pick p h a p' h' :
  pool_ok p h → Get pick p h = Ret (a, p', h') → (0 ≤ size p)%Z →
  pool_ok p' h'.
Proof.
  intros Hok HG Hsz.
  destruct (Get_cases pick p h Hsz) as (a1 & p1 & h1 & HG1 & _ & Hc).
  rewrite HG in HG1; injection HG1 as <- <- <-.
  destruct Hc as [(i & Hi & -> & ->)|(b & -> & -> & Hnone & _)]; intros x Hx.
  - apply Hok. simpl in Hx. by eapply list_elem_of_delete_inv.
  - destruct (Hok x Hx) as (bx & Hbx & ?). exists bx. split; [|done].
    rewrite lookup_insert_ne; [done|congruence].
Qed.

Lemma Put_pool_ok b p h :
  pool_ok p h → from_option (λ a, is_Some (h !! a)) True b →
  pool_ok (Put b p h).1 (Put b p h).2.
Proof.
  intros Hok Hb. destruct b as [a|]; simpl; [|done].
  destruct Hb as [ba Hba]. intros x [->|Hx]%elem_of_cons.
  - exists (bytes.Reset ba). by rewrite lookup_alter_eq, Hba.
  - destruct (Hok x Hx) as (bx & Hbx & Hlen).
    destruct (decide (a = x)) as [->|Hne].
    + exists (bytes.Reset bx). by rewrite lookup_alter_eq, Hbx.
    + exists bx. by rewrite lookup_alter_ne.
Qed.

Lemma NoDup_delete_lookup (l : list addr) i b :
  NoDup l → l !! i = Some b → NoDup (delete i l) ∧ b ∉ delete i l.
Proof.
  intros Hnd Hi. rewrite delete_take_drop.
  rewrite <- (take_drop_middle l i b Hi) in Hnd.
  apply NoDup_app in Hnd as (Hl & Hlr & Hr).
  apply NoDup_cons in Hr as [Hb Hr]. split.
  - apply NoDup_app. split_and!; [done| |done].
    intros x Hx Hx'. apply (Hlr x Hx). by right.
  - rewrite elem_of_app. intros [Hx|Hx]; [|done].
    apply (Hlr b Hx). by left.
Qed.

Lemma select_sublist {A} (keep : list bool) (l : list A) :
  select keep l `sublist_of` l.
Proof.
  revert l; induction keep as [|k ks IH]; intros [|y l]; simpl;
    try destruct k; try apply sublist_nil_l.
  - apply sublist_skip, IH.
  - apply sublist_cons, IH.
Qed.

Lemma owners_elem_of h a : a ∈ owners h ↔ is_Some (h !! a).
Proof.
  unfold owners. rewrite list_elem_of_fmap. split.
  - intros ([a' b] & -> & Hin). apply elem_of_map_to_list in Hin. by exists b.
  - intros [b Hb]. exists (a, b). split; [done|]. by apply elem_of_map_to_list.
Qed.

(** One permitted step keeps the pool and the callers apart. *)
Lemma step_in_order o p h held p' h' :
  pool_in_order p h held → allowed o held = true → (0 ≤ size p)%Z →
  step o p h = Ret (p', h') →
  pool_in_order p' h' (holding o p h held) ∧ size p' = size p.
Proof.
  intros (Hok & Hnd & Hheld) Hall Hsz Hstep.
  destruct o as [pick|[a|]|a b'|keep]; simpl in *.
  - destruct (Get_cases pick p h Hsz) as (a1 & p1 & h1 & HG1 & Hs & Hc).
    rewrite HG1 in Hstep |- *. injection Hstep as <- <-. split; [|done].
    destruct Hc as [(i & Hi & -> & ->)|(b & -> & -> & Hnone & Hlen & _)].
    + destruct (NoDup_delete_lookup _ _ _ Hnd Hi) as [Hnd' Hout].
      assert (a1 ∈ pool p) as Hin by (by eapply list_elem_of_lookup_2).
      split_and!; [|done|].
      * intros x Hx. apply Hok. by eapply list_elem_of_delete_inv.
      * intros x [->|Hx]%elem_of_cons.
        -- split; [|done]. destruct (Hok a1 Hin) as (bx & -> & _). by eexists.
        -- destruct (Hheld x Hx) as [Hlive Hnot]. split; [done|].
           intros Hx'. apply Hnot. by eapply list_elem_of_delete_inv.
    + assert (a1 ∉ pool p) as Hout.
      { intros Hin. destruct (Hok a1 Hin) as (? & ? & _). congruence. }
      split_and!; [|done|].
      * intros x Hx. destruct (Hok x Hx) as (bx & Hbx & ?). exists bx.
        split; [|done]. rewrite lookup_insert_ne; [done|]. by intros ->.
      * intros x [->|Hx]%elem_of_cons.
        -- split; [|done]. rewrite lookup_insert_eq. by eexists.
        -- destruct (Hheld x Hx) as [[bx Hbx] Hnot]. split; [|done].
           exists bx. rewrite lookup_insert_ne; [done|]. intros ->. congruence.
  - apply bool_decide_eq_true in Hall. injection Hstep as <- <-.
    destruct (Hheld a Hall) as [[ba Hba] Hout]. split; [|done].
    split_and!.
    + intros x [->|Hx]%elem_of_cons; simpl.
      * exists (bytes.Reset ba). by rewrite lookup_alter_eq, Hba.
      * destruct (Hok x Hx) as (bx & Hbx & Hlen). exists bx. split; [|done].
        rewrite lookup_alter_ne; [done|]. by intros ->.
    + by apply NoDup_cons.
    + intros x [Hne Hx]%list_elem_of_filter.
      destruct (Hheld x Hx) as [Hlive Hnot]. split.
      * by rewrite lookup_alter_ne.
      * simpl. rewrite not_elem_of_cons. by split.
  - injection Hstep as <- <-. by split.
  - apply bool_decide_eq_true in Hall. injection Hstep as <- <-.
    destruct (Hheld a Hall) as [_ Hout]. split; [|done]. split_and!; [|done|].
    + intros x Hx. destruct (Hok x Hx) as (bx & Hbx & ?). exists bx.
      split; [|done]. rewrite lookup_insert_ne; [done|]. by intros ->.
    + intros x Hx. destruct (Hheld x Hx) as [Hlive Hnot]. split; [|done].
      destruct (decide (a = x)) as [->|Hne];
        [rewrite lookup_insert_eq; by eexists|by rewrite lookup_insert_ne].
  - injection Hstep as <- <-. split; [|done]. split_and!.
    + intros x Hx. apply Hok. by eapply select_elem_of.
    + simpl. exact (sublist_NoDup _ _ Hnd (select_sublist keep (pool p))).
    + intros x Hx. destruct (Hheld x Hx) as [Hlive Hnot]. split; [done|].
      intros Hx'. apply Hnot. by eapply select_elem_of.
Qed.

Lemma run_in_order ops p h held p' h' held' :
  pool_in_order p h held → (0 ≤ size p)%Z →
  run ops p h held = Some (p', h', held') →
  pool_in_order p' h' held' ∧ size p' = size p.
Proof.
  revert p h held. induction ops as [|o ops IH]; intros p h held Hin Hsz Hrun;
    simpl in Hrun.
  - by injection Hrun as <- <- <-.
  - destruct (allowed o held) eqn:Hall; [|done].
    destruct (step o p h) as [[p1 h1]|] eqn:Hstep; [|done].
    destruct (step_in_order _ _ _ _ _ _ Hin Hall Hsz Hstep) as [Hin1 Hs1].
    destruct (IH p1 h1 _ Hin1 ltac:(lia) Hrun) as [? ?].
    split; [done|congruence].
Qed.

(** With a size class that is not negative no operation panics. *)
Lemma step_returns o p h :
  (0 ≤ size p)%Z → ∃ p' h', step o p h = Ret (p', h').
Proof.
  intros Hsz. destruct o as [pick|b|a b'|keep]; simpl; try by eauto.
  - destruct (Get_cases pick p h Hsz) as (a & p' & h' & -> & _). by eauto.
  - destruct (Put b p h) as [p' h']. by eauto.
Qed.

(** So a sequence is cut short by the rule on callers only: when [run]
    gives nothing, a caller has used or released a buffer it did not
    hold. *)
Lemma run_stops_only_on_the_rule ops p h held :
  pool_in_order p h held → (0 ≤ size p)%Z →
  run ops p h held = None →
  ∃ pre o post p' h' held',
    ops = (pre ++ o :: post)%list
    ∧ run pre p h held = Some (p', h', held')
    ∧ allowed o held' = false.
Proof.
  revert p h held. induction ops as [|o ops IH]; intros p h held Hin Hsz Hrun;
    simpl in Hrun; [done|].
  destruct (allowed o held) eqn:Hall.
  - destruct (step_returns o p h Hsz) as (p1 & h1 & Hstep).
    rewrite Hstep in Hrun.
    destruct (step_in_order _ _ _ _ _ _ Hin Hall Hsz Hstep) as [Hin1 Hs1].
    destruct (IH p1 h1 _ Hin1 ltac:(lia) Hrun)
      as (pre & o' & post & p' & h' & held' & -> & Hpre & Hno).
    exists (o :: pre), o', post, p', h', held'. split_and!; [done| |done].
    simpl. by rewrite Hall, Hstep.
  - by exists [], o, ops, p, h, held.
Qed.

(** C2, under the rule on callers.  For every size class, after any
    sequence of acquires, releases, uses and collections in which
    callers use and release only buffers they hold, [Get] does not fail
    and returns a live buffer of logical length zero that no caller
    holds and that is no longer in the pool.  Its capacity is that of the size class when
    it is fresh and, when it comes from the pool, the one it has in the
    store, which [Put] left as it was while truncating. *)
Theorem BufferPool_Get_returns_unshared_empty_buffer
    (sz : Z) (h0 h : gmap addr bytes.Buffer) (ops : list op)
    (p : BufferPool) (held : list addr) (pick : option nat) :
  (0 ≤ sz)%Z →
  run ops (NewBufferPool sz) h0 (owners h0) = Some (p, h, held) →
  (∃ a p' h' b,
      Get pick p h = Ret (a, p', h') ∧ h' !! a = Some b ∧ bytes.Len b = 0
      ∧ (a ∉ held) ∧ (a ∉ pool p')
      ∧ ((h !! a = None ∧ bytes.Cap b = Z.to_nat sz)
         ∨ (a ∈ pool p ∧ h !! a = Some b)))
  ∧ (∀ a b, h !! a = Some b →
       ∃ b', (Put (Some a) p h).2 !! a = Some b' ∧ a ∈ pool (Put (Some a) p h).1
             ∧ bytes.Len b' = 0 ∧ bytes.Cap b' = bytes.Cap b).
Proof.
  intros Hsz Hrun.
  assert (pool_in_order (NewBufferPool sz) h0 (owners h0)) as Hinit.
  { split_and!; [intros a Ha; inversion Ha|constructor|].
    intros a Ha%owners_elem_of. split; [done|]. simpl. by intros ?%elem_of_nil. }
  destruct (run_in_order ops _ h0 _ p h held Hinit Hsz Hrun)
    as [(Hok & Hnd & Hheld) Hs]. simpl in Hs.
  split.
  - destruct (Get_cases pick p h ltac:(lia)) as (a & p' & h' & HG & _ & Hc).
    destruct Hc as [(i & Hi & -> & ->)|(b & -> & -> & Hnone & Hlen & Hcap)].
    + assert (a ∈ pool p) as Ha by (by eapply list_elem_of_lookup_2).
      destruct (Hok a Ha) as (b & Hb & Hlen).
      destruct (NoDup_delete_lookup _ _ _ Hnd Hi) as [_ Hout].
      eexists a, _, h, b. split_and!; [done..| |done|by right].
      intros Hin. by destruct (Hheld a Hin).
    + eexists a, p, _, b. rewrite lookup_insert_eq.
      split_and!; [done..| | |].
      * intros Hin. destruct (Hheld a Hin) as [[? ?] _]. congruence.
      * intros Hin. destruct (Hok a Hin) as (? & ? & _). congruence.
      * left. split; [done|congruence].
  - intros a b Hab. exists (bytes.Reset b). simpl.
    rewrite lookup_alter_eq, Hab. split_and!; try done. by left.
Qed.

End BufferPoolFacts.

(** ** The request adapter *)

Section AdapterFacts.

Import proxy.

(** C1 (the code departs from it). A resolver that succeeds with no
    address at all makes [modifyRequest] index an empty slice: the
    adapter panics, it does not fail with a resolution error, and
    [ServeHTTP] is left through the panic before any reply is written. *)
Theorem modifyRequest_empty_result_panics :
  let r := fixture.inbound "empty.example" None in
  resolver.Get fixture.names (http.Host r) = Ok []
  ∧ fst (modifyRequest fixture.front r fixture.boot)
    = Panic index_out_of_range
  ∧ (∀ err, fst (modifyRequest fixture.front r fixture.boot) ≠ Ret (Err err))
  ∧ (let '(out, σ') :=
       ServeHTTP (fixture.origin "identity") fixture.gzip_header
         fixture.first_pooled fixture.front r fixture.boot in
     out = Panic index_out_of_range ∧ http.status (w σ') = None).
Proof. vm_compute. by split_and!. Qed.

(** The same for every proxy, request and state. *)
Lemma modifyRequest_no_address p r σ :
  resolver.Get (resolver p) (http.Host r) = Ok [] →
  fst (modifyRequest p r σ) = Panic index_out_of_range.
Proof. intros H. unfold modifyRequest, Clone. by rewrite H. Qed.

(** What the adapter returns when the resolver yields an address. *)
Lemma modifyRequest_resolved p r σ ip rest :
  resolver.Get (resolver p) (http.Host r) = Ok (ip :: rest) →
  modifyRequest p r σ =
    (Ret (Ok {| http.Method := http.Method r;
                http.rURL :=
                  {| http.Scheme := match http.TLS r with
                                    | Some _ => "https"
                                    | None => "http"
                                    end;
                     http.UHost := ip;
                     http.Path := http.Path (http.rURL r);
                     http.RawQuery := http.RawQuery (http.rURL r) |};
                http.rHeader := http.rHeader r;
                http.Host := http.Host r;
                http.RequestURI := "";
                http.TLS := http.TLS r |}),
     mkWorld (w σ) (heap σ) (pooled σ)
       (trace σ ++ [EvLog Debug "resolver request host"
                      [FString "host" (http.Host r);
                       FStrings "ip" (ip :: rest)]])).
Proof.
  intros H. unfold modifyRequest, Clone. rewrite H. by destruct (http.TLS r).
Qed.

(** An adapted request comes from a resolver answer with a first
    address. *)
Lemma modifyRequest_Ok_inv p r σ req σ' :
  modifyRequest p r σ = (Ret (Ok req), σ') →
  ∃ ip rest, resolver.Get (resolver p) (http.Host r) = Ok (ip :: rest).
Proof.
  unfold modifyRequest, Clone.
  destruct (resolver.Get _ _) as [[|ip rest]|e]; [done| |done]. eauto.
Qed.

(** C4. The adapted request's scheme is [https] exactly when the
    inbound request came over TLS, and [http] otherwise. *)
Theorem modifyRequest_scheme p r σ req σ' :
  modifyRequest p r σ = (Ret (Ok req), σ') →
  (http.Scheme (http.rURL req) = "https" ↔ http.TLS r ≠ None)
  ∧ (http.TLS r = None → http.Scheme (http.rURL req) = "http").
Proof.
  intros H. destruct (modifyRequest_Ok_inv _ _ _ _ _ H) as (ip & rest & Hres).
  rewrite (modifyRequest_resolved _ _ _ _ _ Hres) in H.
  injection H as <- _. simpl. by destruct (http.TLS r).
Qed.

Lemma modifyRequest_scheme_witness :
  let r := fixture.inbound "example.com"
             (Some {| http.HandshakeComplete := true |}) in
  let req := fixture.adapted (http.TLS r) in
  modifyRequest fixture.front r fixture.boot
    = (Ret (Ok req), snd (modifyRequest fixture.front r fixture.boot))
  ∧ (http.Scheme (http.rURL req) = "https" ↔ http.TLS r ≠ None)
  ∧ (http.TLS r = None → http.Scheme (http.rURL req) = "http").
Proof.
  intros r req.
  assert (modifyRequest fixture.front r fixture.boot
          = (Ret (Ok req), snd (modifyRequest fixture.front r fixture.boot)))
    as Hrun by (vm_compute; reflexivity).
  split; [exact Hrun|].
  exact (modifyRequest_scheme fixture.front r fixture.boot req _ Hrun).
Defined.

(** C5. When the resolver yields a non-empty sequence the adapted
    request's authority is its first element, and the adapted request is
    the same whatever follows the first element. *)
Theorem modifyRequest_first_address p r σ ip rest :
  resolver.Get (resolver p) (http.Host r) = Ok (ip :: rest) →
  ∃ req σ',
    modifyRequest p r σ = (Ret (Ok req), σ')
    ∧ http.UHost (http.rURL req) = ip
    ∧ ∀ p2 σ2 rest2,
        resolver.Get (resolver p2) (http.Host r) = Ok (ip :: rest2) →
        fst (modifyRequest p2 r σ2) = Ret (Ok req).
Proof.
  intros H. eexists _, _. split; [by apply modifyRequest_resolved|].
  split; [done|]. intros p2 σ2 rest2 H2.
  by rewrite (modifyRequest_resolved _ _ _ _ _ H2).
Qed.

Lemma modifyRequest_first_address_witness :
  resolver.Get fixture.names "example.com" = Ok ["10.0.0.1:80"; "10.0.0.2:80"]
  ∧ ∃ req σ',
      modifyRequest fixture.front (fixture.inbound "example.com" None)
        fixture.boot = (Ret (Ok req), σ')
      ∧ http.UHost (http.rURL req) = "10.0.0.1:80".
Proof.
  assert (resolver.Get (resolver fixture.front)
            (http.Host (fixture.inbound "example.com" None))
          = Ok ["10.0.0.1:80"; "10.0.0.2:80"]) as Hres by reflexivity.
  split; [exact Hres|].
  destruct (modifyRequest_first_address fixture.front
              (fixture.inbound "example.com" None) fixture.boot
              "10.0.0.1:80" ["10.0.0.2:80"] Hres)
    as (req & σ' & Hrun & Hhost & _).
  by exists req, σ'.
Defined.

End AdapterFacts.

(** ** The proxy engine *)

Section EngineFacts.

Import proxy vocabulary.
Local Open Scope list_scope.

Variable client_Do : http.Request → result http.Response.
Variable gzip_NewReader : list byte → nat * option error.
Variable sched : World → option nat.

Lemma bind_Ret {A B} (m : M A) (k : A → M B) σ a σ' :
  m σ = (Ret a, σ') → bind m k σ = k a σ'.
Proof. intros H. unfold bind. by rewrite H. Qed.

Lemma bind_Panic {A B} (m : M A) (k : A → M B) σ msg σ' :
  m σ = (Panic msg, σ') → bind m k σ = (Panic msg, σ').
Proof. intros H. unfold bind. by rewrite H. Qed.

(** *** Buffers *)

Lemma Bytes_empty b : bytes.Len b = 0 → bytes.Bytes b = [].
Proof.
  unfold bytes.Len, bytes.Bytes. intros H. apply drop_ge. lia.
Qed.

Lemma Bytes_Write p b : bytes.Bytes (bytes.Write p b) = bytes.Bytes b ++ p.
Proof.
  unfold bytes.Write. destruct (decide (bytes.Len b = 0)) as [H0|Hn].
  - by rewrite (Bytes_empty b H0).
  - unfold bytes.Bytes, bytes.Len in *. simpl.
    rewrite drop_app_le; [done|lia].
Qed.

Lemma Bytes_filled chunks b :
  bytes.Bytes (filled chunks b) = bytes.Bytes b ++ concat chunks.
Proof.
  unfold filled. revert b.
  induction chunks as [|c chunks IH]; intros b; simpl.
  - by rewrite app_nil_r.
  - by rewrite IH, Bytes_Write, <- app_assoc.
Qed.



(** *** The response writer *)

Lemma sent_header chunks rw : http.header (sent chunks rw) = http.header rw.
Proof.
  unfold sent. revert rw. induction chunks as [|c chunks IH]; intros rw;
    simpl; [done|]. by rewrite IH.
Qed.

Lemma sent_body chunks rw :
  http.body (sent chunks rw) = http.body rw ++ concat chunks.
Proof.
  unfold sent. revert rw. induction chunks as [|c chunks IH]; intros rw; simpl.
  - by rewrite app_nil_r.
  - rewrite IH. simpl. destruct (http.status rw); simpl; by rewrite <- app_assoc.
Qed.

Lemma sent_status chunks rw :
  http.status (sent chunks rw)
  = match chunks with
    | [] => http.status rw
    | _ :: _ => Some (default http.StatusOK (http.status rw))
    end.
Proof.
  unfold sent. revert rw. induction chunks as [|c chunks IH]; intros rw;
    [done|].
  simpl. rewrite IH. simpl. by destruct chunks, (http.status rw).
Qed.

Lemma relayed_body h rw : http.body (relayed h rw) = http.body rw.
Proof.
  unfold relayed. revert rw. induction h as [|kv h IH]; intros rw;
    simpl; [done|]. by rewrite IH.
Qed.

Lemma relayed_status h rw : http.status (relayed h rw) = http.status rw.
Proof.
  unfold relayed. revert rw. induction h as [|kv h IH]; intros rw;
    simpl; [done|]. by rewrite IH.
Qed.

Lemma relayed_other h rw key :
  key ∉ (λ kv, textproto.CanonicalMIMEHeaderKey kv.1) <$> h →
  http.header (relayed h rw) !! key = http.header rw !! key.
Proof.
  unfold relayed. revert rw. induction h as [|kv h IH]; intros rw Hout;
    simpl; [done|].
  rewrite fmap_cons, not_elem_of_cons in Hout. destruct Hout as [Hne Hout].
  rewrite IH by done. simpl. by rewrite lookup_insert_ne.
Qed.

Lemma relayed_lookup h rw k v :
  NoDup ((λ kv, textproto.CanonicalMIMEHeaderKey kv.1) <$> h) →
  (k, v) ∈ h →
  http.header (relayed h rw) !! textproto.CanonicalMIMEHeaderKey k
    = Some [joined v].
Proof.
  unfold relayed. revert rw. induction h as [|kv h IH]; intros rw Hnd Hin.
  - by apply elem_of_nil in Hin.
  - rewrite fmap_cons in Hnd. apply NoDup_cons in Hnd as [Hout Hnd].
    apply elem_of_cons in Hin as [<-|Hin]; simpl.
    + fold (relayed h (http.Header_Set k (joined v) rw)).
      rewrite relayed_other by done. simpl. by rewrite lookup_insert_eq.
    + by apply IH.
Qed.

Lemma append_empty_r (x : string) : x +:+ "" = x.
Proof.
  induction x as [|c x IH]; [done|].
  change (String c (x +:+ "") = String c x). by rewrite IH.
Qed.

Lemma strings_Join_glued v : strings_Join v "" = glued v.
Proof.
  unfold glued. induction v as [|x [|y v] IH]; [done| |].
  - change (x = x +:+ ""). by rewrite append_empty_r.
  - change (x +:+ strings_Join (y :: v) ""
            = x +:+ foldr String.append "" (y :: v)).
    by rewrite IH.
Qed.

(** *** The stages of [ServeHTTP] *)

Lemma relay_header_run k v σ :
  v ≠ [] →
  relay_header (k, v) σ
    = (Ret tt, mkWorld (http.Header_Set k (joined v) (w σ)) (heap σ)
                 (pooled σ) (trace σ)).
Proof.
  intros Hv. unfold relay_header, joined.
  destruct v as [|v0 v]; [done|].
  by destruct (decide (length (v0 :: v) < 2)).
Qed.

Lemma relay_headers_run h σ :
  Forall (λ kv, kv.2 ≠ []) h →
  relay_headers h σ
    = (Ret tt, mkWorld (relayed h (w σ)) (heap σ) (pooled σ) (trace σ)).
Proof.
  unfold relayed. revert σ. induction h as [|[k v] h IH]; intros σ Hne.
  - by destruct σ.
  - apply Forall_cons in Hne as [Hv Hne]. simpl in Hv.
    cbn [relay_headers].
    rewrite (bind_Ret _ _ _ _ _ (relay_header_run k v σ Hv)).
    by rewrite IH.
Qed.

Lemma MultiWriter_Write_run b chunk σ :
  MultiWriter_Write b chunk σ
    = (Ret tt, mkWorld (http.Write chunk (w σ))
                 (alter (bytes.Write chunk) b (heap σ)) (pooled σ) (trace σ)).
Proof. reflexivity. Qed.

Lemma io_Copy_run b chunks σ :
  io_Copy (MultiWriter_Write b) chunks σ
    = (Ret tt, mkWorld (sent chunks (w σ)) (alter (filled chunks) b (heap σ))
                 (pooled σ) (trace σ)).
Proof.
  unfold sent, filled. revert σ. induction chunks as [|c chunks IH]; intros σ.
  - destruct σ as [rw h pl t]; simpl. unfold ret. f_equal. f_equal.
    apply map_eq; intros i. rewrite lookup_alter.
    case_decide; [|done]. subst. by destruct (h !! i).
  - cbn [io_Copy].
    rewrite (bind_Ret _ _ _ _ _ (MultiWriter_Write_run b c σ)).
    rewrite IH. simpl. f_equal. f_equal.
    apply map_eq; intros i. rewrite !lookup_alter.
    case_decide; [|done]. subst i. rewrite decide_True by done.
    by destruct (heap σ !! b).
Qed.

Lemma BufferPool4k_Get_run σ :
  ∃ b h1 pl,
    BufferPool4k_Get sched σ
      = (Ret b, mkWorld (w σ) h1 pl (trace σ ++ [EvGet b]))
    ∧ (pool_ok (BufferPool4k σ) (heap σ) →
       ∃ buf, h1 !! b = Some buf ∧ bytes.Len buf = 0).
Proof.
  unfold BufferPool4k_Get.
  destruct (Get_cases (sched σ) (BufferPool4k σ) (heap σ)) as
    (b & p' & h' & HG & _ & Hc); [done|].
  rewrite HG. exists b, h', (core.pool p'). split; [done|]. intros Hok.
  destruct Hc as [(i & Hi & -> & ->)|(buf & -> & -> & _ & Hlen & _)].
  - apply Hok. by eapply list_elem_of_lookup_2.
  - exists buf. by rewrite lookup_insert_eq.
Qed.

Lemma decode_run encoding b σ :
  decode gzip_NewReader encoding b σ
    = (Ret (selected gzip_NewReader encoding (unread (heap σ) b) b),
       mkWorld (w σ)
         (touched gzip_NewReader encoding (unread (heap σ) b) b (heap σ))
         (pooled σ)
         (trace σ ++ decode_log gzip_NewReader encoding (unread (heap σ) b))).
Proof.
  unfold decode, selected, decode_log, touched, unread.
  destruct (decide (encoding = "br")) as [Hbr|Hbr].
  - rewrite !decide_False by (subst; done).
    cbn. rewrite app_nil_r. by destruct σ.
  - destruct (decide (encoding = "gzip")) as [Hgz|Hgz].
    + destruct (gzip_NewReader _) as [n [err|]]; cbn; [done|].
      by rewrite app_nil_r.
    + cbn. rewrite app_nil_r. by destruct σ.
Qed.

Lemma invoke_run e ctx σ :
  let σ1 := mkWorld (w σ) (heap σ) (pooled σ)
              (trace σ ++ [EvHandler ctx (heap σ)]) in
  if handler_panics e ctx
  then invoke e ctx σ = (Panic nil_dereference, σ1)
  else ∃ h', invoke e ctx σ
               = (Ret tt, mkWorld (w σ) h' (pooled σ) (trace σ1)).
Proof.
  unfold handler_panics, invoke, bind, emit; simpl.
  destruct (executor.Handler e ctx) as [n|]; [|by eexists].
  by destruct (exchange.ResponseBody ctx) as [| | |[|]]; simpl; try eexists.
Qed.

Lemma BufferPool4k_Put_run b σ :
  BufferPool4k_Put (Some b) σ
    = (Ret tt, mkWorld (w σ) (alter bytes.Reset b (heap σ)) (b :: pooled σ)
                 (trace σ ++ [EvPut b])).
Proof. reflexivity. Qed.

Lemma emit_run e σ :
  emit e σ = (Ret tt, mkWorld (w σ) (heap σ) (pooled σ) (trace σ ++ [e])).
Proof. reflexivity. Qed.

(** The whole of a dispatched request: the adapter produced [req], the
    origin answered, and no header of the answer is without a value. *)
Lemma ServeHTTP_dispatched p r σ req σ1 response :
  modifyRequest p r σ = (Ret (Ok req), σ1) →
  client_Do req = Ok response →
  Forall (λ kv, kv.2 ≠ []) (http.Header_ response) →
  ∃ b h1 pl,
    (pool_ok (BufferPool4k σ) (heap σ) →
     ∃ buf, h1 !! b = Some buf ∧ bytes.Len buf = 0)
    ∧ let chunks := http.Body response in
      let h2 := alter (filled chunks) b h1 in
      let encoding := http.Header_Get (http.Header_ response) "Content-Encoding" in
      let hh := touched gzip_NewReader encoding (unread h2 b) b h2 in
      let reader := selected gzip_NewReader encoding (unread h2 b) b in
      let ctx :=
        exchange.mkContext (snapshot req)
          (exchange.mkResponseHeader
             (http.Header_Get (http.Header_ response) "Content-Type"))
          reader in
      let t := trace σ1 ++ [EvDo req; EvGet b]
               ++ decode_log gzip_NewReader encoding (unread h2 b)
               ++ [EvHandler ctx hh] in
      let rw := sent chunks (relayed (http.Header_ response) (w σ)) in
      if handler_panics (execute p) ctx
      then ServeHTTP client_Do gzip_NewReader sched p r σ
           = (Panic nil_dereference, mkWorld rw hh pl (t ++ [EvClose]))
      else ∃ h', ServeHTTP client_Do gzip_NewReader sched p r σ
                 = (Ret tt,
                    mkWorld rw (alter bytes.Reset b h') (b :: pl)
                      (t ++ epilogue req ctx ++ [EvPut b; EvClose])).
Proof.
  intros Hmod Hdo Hne.
  destruct (modifyRequest_Ok_inv _ _ _ _ _ Hmod) as (ip & rest & Hres).
  pose proof Hmod as Hσ1.
  rewrite (modifyRequest_resolved _ _ _ _ _ Hres) in Hσ1.
  injection Hσ1 as _ Hσ1.
  unfold ServeHTTP. rewrite (bind_Ret _ _ _ _ _ Hmod). cbn beta iota.
  subst σ1.
  rewrite (bind_Ret _ _ _ _ _ (emit_run _ _)). rewrite Hdo.
  unfold defer. cbn [w heap pooled trace].
  rewrite (bind_Ret _ _ _ _ _ (relay_headers_run _ _ Hne)).
  cbn [w heap pooled trace].
  match goal with |- context [bind (BufferPool4k_Get sched) _ ?σ] =>
    destruct (BufferPool4k_Get_run σ) as (b & h1 & pl & HG & Hbuf) end.
  cbn [w heap pooled trace] in HG.
  rewrite (bind_Ret _ _ _ _ _ HG).
  rewrite (bind_Ret _ _ _ _ _ (io_Copy_run _ _ _)).
  cbn [w heap pooled trace].
  rewrite (bind_Ret _ _ _ _ _ (decode_run _ _ _)).
  cbn [w heap pooled trace].
  exists b, h1, pl. split; [exact Hbuf|].
  cbn zeta. cbn [w heap pooled trace].
  match goal with |- context [bind (invoke ?e ?ctx) _ ?σ] =>
    pose proof (invoke_run e ctx σ) as Hinv end.
  cbn zeta in Hinv. cbn [w heap pooled trace] in Hinv.
  destruct (handler_panics _ _).
  - rewrite (bind_Panic _ _ _ _ _ Hinv). cbn [w heap pooled trace].
    unfold close_body. cbn [w heap pooled trace].
    do 2 f_equal. rewrite <- !app_assoc. reflexivity.
  - destruct Hinv as [h' Hinv]. exists h'.
    rewrite (bind_Ret _ _ _ _ _ Hinv).
    rewrite (bind_Ret _ _ _ _ _ (emit_run _ _)).
    rewrite (bind_Ret _ _ _ _ _ (emit_run _ _)).
    rewrite BufferPool4k_Put_run. cbn [w heap pooled trace].
    unfold close_body, epilogue. cbn [w heap pooled trace].
    do 2 f_equal. rewrite <- !app_assoc. reflexivity.
Qed.

Lemma acquisitions_app b t1 t2 :
  acquisitions b (t1 ++ t2) = acquisitions b t1 + acquisitions b t2.
Proof. unfold acquisitions. by rewrite filter_app, length_app. Qed.

Lemma list_byte_of_string_app (s t : string) :
  list_byte_of_string (s +:+ t)
  = list_byte_of_string s ++ list_byte_of_string t.
Proof.
  induction s as [|c s IH]; [done|].
  change (byte_of_ascii c :: list_byte_of_string (s +:+ t)
          = byte_of_ascii c :: (list_byte_of_string s ++ list_byte_of_string t)).
  by rewrite IH.
Qed.

(** C6. When host resolution fails, [ServeHTTP] returns at once: the
    client is sent status 500 with the error text as the body (the line
    that [http.Error] writes), nothing is dispatched upstream, the
    handler is not invoked, and the pool and the buffers are left alone:
    the only event is the log entry. *)
Theorem ServeHTTP_resolution_failure p r σ err :
  resolver.Get (resolver p) (http.Host r) = Err err →
  http.status (w σ) = None →
  let text := Errorf_resolver (http.Host r) err in
  ∃ σ',
    ServeHTTP client_Do gzip_NewReader sched p r σ = (Ret tt, σ')
    ∧ w σ' = http.Error text http.StatusInternalServerError (w σ)
    ∧ http.status (w σ') = Some 500%Z
    ∧ http.body (w σ')
      = http.body (w σ) ++ list_byte_of_string text ++ [Byte.x0a]
    ∧ heap σ' = heap σ
    ∧ pooled σ' = pooled σ
    ∧ trace σ' = trace σ ++ [EvLog Error "modify request" [FString "error" text]]
    ∧ ∀ b, acquisitions b (trace σ') = acquisitions b (trace σ).
Proof.
  intros Hres Hfresh text.
  assert (modifyRequest p r σ = (Ret (Err text), σ)) as Hmod.
  { unfold modifyRequest, Clone. by rewrite Hres. }
  eexists. split.
  { unfold ServeHTTP. rewrite (bind_Ret _ _ _ _ _ Hmod). reflexivity. }
  cbn [w heap pooled trace]. split_and!; try done.
  - unfold http.Error, http.Write, http.WriteHeader. simpl. by rewrite Hfresh.
  - unfold http.Error, http.Write, http.WriteHeader.
    cbn [http.body http.Header_Set http.Header_Del].
    by rewrite list_byte_of_string_app.
  - intros b. by rewrite acquisitions_app, Nat.add_0_r.
Qed.

(** C7. Every upstream header is re-emitted under its name with a
    single value: the value itself when the header has exactly one, and
    all the values run together, nothing between them, when it has two
    or more. *)
Theorem ServeHTTP_header_relay p r σ req σ1 response
    (k : string) (v : list string) :
  modifyRequest p r σ = (Ret (Ok req), σ1) →
  client_Do req = Ok response →
  Forall (λ kv, kv.2 ≠ []) (http.Header_ response) →
  NoDup ((λ kv, textproto.CanonicalMIMEHeaderKey kv.1)
           <$> http.Header_ response) →
  (k, v) ∈ http.Header_ response →
  let σ' := snd (ServeHTTP client_Do gzip_NewReader sched p r σ) in
  let emitted :=
    http.header (w σ') !! textproto.CanonicalMIMEHeaderKey k in
  (∀ v0, v = [v0] → emitted = Some [v0])
  ∧ ((2 ≤ length v)%nat → emitted = Some [glued v]).
Proof.
  intros Hmod Hdo Hne Hnd Hin σ' emitted.
  assert (w σ' = sent (http.Body response)
                   (relayed (http.Header_ response) (w σ))) as Hw.
  { destruct (ServeHTTP_dispatched p r σ req σ1 response Hmod Hdo Hne)
      as (b & h1 & pl & _ & Hrun). cbn zeta in Hrun. subst σ'.
    destruct (handler_panics _ _); [by rewrite Hrun|].
    destruct Hrun as [h' ->]. done. }
  assert (emitted = Some [joined v]) as ->.
  { subst emitted. rewrite Hw, sent_header. by apply relayed_lookup. }
  split.
  - by intros v0 ->.
  - intros Hlen. unfold joined.
    rewrite decide_False by lia. by rewrite strings_Join_glued.
Qed.


(** What a dispatched request has written to the response writer when
    [ServeHTTP] ends, by return or by panic: the relayed headers, then
    the upstream body.  Neither the switch nor the handler writes. *)
Lemma ServeHTTP_written p r σ req σ1 response :
  modifyRequest p r σ = (Ret (Ok req), σ1) →
  client_Do req = Ok response →
  Forall (λ kv, kv.2 ≠ []) (http.Header_ response) →
  let σ' := snd (ServeHTTP client_Do gzip_NewReader sched p r σ) in
  w σ' = sent (http.Body response) (relayed (http.Header_ response) (w σ))
  ∧ http.body (w σ') = http.body (w σ) ++ concat (http.Body response)
  ∧ (http.status (w σ) = None →
     http.status (w σ') = Some http.StatusOK ∨ http.status (w σ') = None).
Proof.
  intros Hmod Hdo Hne σ'.
  assert (w σ' = sent (http.Body response)
                   (relayed (http.Header_ response) (w σ))) as Hw.
  { destruct (ServeHTTP_dispatched p r σ req σ1 response Hmod Hdo Hne)
      as (b & h1 & pl & _ & Hrun). cbn zeta in Hrun. subst σ'.
    destruct (handler_panics _ _); [by rewrite Hrun|].
    destruct Hrun as [h' ->]. done. }
  split_and!; [done| |].
  - by rewrite Hw, sent_body, relayed_body.
  - intros Hfresh. rewrite Hw, sent_status, relayed_status, Hfresh.
    destruct (http.Body response); [by right|by left].
Qed.


End EngineFacts.

(** ** The pool stays in order across requests *)

Section InvariantFacts.

Import proxy vocabulary.
Local Open Scope list_scope.

Implicit Types (h : gmap core.addr bytes.Buffer) (σ : World).

Lemma pool_ok_alter f b pl h sz :
  b ∉ pl → pool_ok (core.mkBufferPool sz pl) h →
  pool_ok (core.mkBufferPool sz pl) (alter f b h).
Proof.
  intros Hout Hok a Ha. destruct (Hok a Ha) as (buf & Hbuf & Hlen).
  exists buf. split; [|done]. rewrite lookup_alter_ne; [done|].
  intros ->. by apply Hout.
Qed.

(** [Get] in a world that is in order: the buffer handed out is live and
    empty, it is no longer in the pool, and the pool is still in order. *)
Lemma BufferPool4k_Get_ok sched σ :
  world_ok σ →
  ∃ b h1 pl buf,
    BufferPool4k_Get sched σ
      = (Ret b, mkWorld (w σ) h1 pl (trace σ ++ [EvGet b]))
    ∧ h1 !! b = Some buf ∧ bytes.Len buf = 0
    ∧ pool_ok (core.mkBufferPool 4096 pl) h1 ∧ NoDup pl ∧ b ∉ pl.
Proof.
  intros [Hok Hnd]. unfold BufferPool4k_Get.
  destruct (Get_cases (sched σ) (BufferPool4k σ) (heap σ)) as
    (b & p' & h' & HG & _ & Hc); [done|].
  rewrite HG.
  destruct Hc as [(i & Hi & -> & ->)|(buf & -> & -> & Hnone & Hlen & _)].
  - simpl in Hi. destruct (NoDup_delete_lookup _ _ _ Hnd Hi) as [Hnd' Hout].
    destruct (Hok b) as (buf & Hbuf & Hlen); [by eapply list_elem_of_lookup_2|].
    exists b, (heap σ), (delete i (pooled σ)), buf. split_and!; try done.
    intros a Ha. apply Hok. simpl in *. by eapply list_elem_of_delete_inv.
  - exists b, (<[b:=buf]> (heap σ)), (pooled σ), buf.
    assert (b ∉ pooled σ) as Hout.
    { intros Hin. destruct (Hok b Hin) as (? & ? & _). simpl in *. congruence. }
    split_and!; try done.
    + by rewrite lookup_insert_eq.
    + intros a Ha. destruct (Hok a Ha) as (ba & Hba & ?). exists ba.
      split; [|done]. rewrite lookup_insert_ne; [done|]. by intros ->.
Qed.

Lemma relay_headers_frame (hd : http.Header) σ :
  heap (relay_headers hd σ).2 = heap σ
  ∧ pooled (relay_headers hd σ).2 = pooled σ.
Proof.
  revert σ. induction hd as [|[k v] hd IH]; intros σ; [done|].
  cbn [relay_headers]. unfold bind.
  destruct (relay_header (k, v) σ) as [[[]|msg] σ1] eqn:Hone.
  - destruct (IH σ1) as [-> ->]. unfold relay_header in Hone.
    destruct (decide (length v < 2)); [destruct (v !! 0)|];
      unfold respond, panic in Hone; by simplify_eq.
  - unfold relay_header in Hone.
    destruct (decide (length v < 2)); [destruct (v !! 0)|];
      unfold respond, panic in Hone; by simplify_eq.
Qed.

Lemma modifyRequest_frame p r σ :
  heap (modifyRequest p r σ).2 = heap σ
  ∧ pooled (modifyRequest p r σ).2 = pooled σ.
Proof.
  unfold modifyRequest, Clone.
  destruct (resolver.Get _ _) as [[|ip rest]|e]; done.
Qed.

Lemma invoke_frame e ctx σ :
  w (invoke e ctx σ).2 = w σ
  ∧ pooled (invoke e ctx σ).2 = pooled σ
  ∧ (heap (invoke e ctx σ).2 = heap σ
     ∨ ∃ n b, behind (exchange.ResponseBody ctx) = Some b
              ∧ heap (invoke e ctx σ).2 = alter (consume n) b (heap σ)).
Proof.
  unfold invoke, bind, emit; simpl.
  destruct (executor.Handler e ctx) as [n|]; [|by split_and!; try left].
  destruct (exchange.ResponseBody ctx) as [| | |[|]]; simpl;
    split_and!; try done; eauto.
Qed.

Lemma world_ok_ext σ σ' :
  heap σ' = heap σ → pooled σ' = pooled σ → world_ok σ → world_ok σ'.
Proof.
  unfold world_ok, pool_ok, BufferPool4k. simpl. by intros -> ->.
Qed.

Lemma behind_selected gz encoding data b :
  behind (selected gz encoding data b) = Some b
  ∨ behind (selected gz encoding data b) = None.
Proof.
  unfold selected. repeat case_decide; [by left| |by left].
  destruct (gz data) as [n [err|]]; [by right|by left].
Qed.

(** The switch leaves the store as an update of the one cell at [b]. *)
Lemma touched_alter gz encoding data b f h :
  ∃ g, touched gz encoding data b (alter f b h) = alter g b h.
Proof.
  unfold touched. case_decide; [|by eexists].
  eexists. by rewrite alter_alter_eq.
Qed.

Lemma touched_other gz encoding data b h a :
  a ≠ b → touched gz encoding data b h !! a = h !! a.
Proof.
  intros Hne. unfold touched. case_decide; [|done]. by rewrite lookup_alter_ne.
Qed.

(** The state in which a request leaves the pool once it has acquired
    [b], written to it and let the handler read: in order before the
    release, and in order after it. *)
Lemma world_ok_after pl h1 b buf f rw t :
  pool_ok (core.mkBufferPool 4096 pl) h1 → NoDup pl → b ∉ pl →
  h1 !! b = Some buf →
  world_ok (mkWorld rw (alter f b h1) pl t)
  ∧ world_ok (mkWorld rw (alter bytes.Reset b (alter f b h1)) (b :: pl) t).
Proof.
  intros Hok Hnd Hout Hb. split; (split; [|simpl]).
  - by apply (pool_ok_alter f b pl h1 4096).
  - done.
  - intros a [->|Ha]%elem_of_cons; simpl.
    + exists (bytes.Reset (f buf)). by rewrite !lookup_alter_eq, Hb.
    + destruct (Hok a Ha) as (ba & Hba & Hlen). exists ba. split; [|done].
      rewrite !lookup_alter_ne; [done|by intros ->..].
  - by apply NoDup_cons.
Qed.

(** Serving a request keeps the pool in order, on every path: the error
    replies, a panic in the adapter, in the header loop or in the
    handler, and the normal return. *)
Lemma ServeHTTP_world_ok client_Do gz sched p r σ :
  world_ok σ → world_ok (ServeHTTP client_Do gz sched p r σ).2.
Proof.
  intros Hσ. unfold ServeHTTP.
  destruct (modifyRequest_frame p r σ) as [Hh1 Hp1].
  destruct (modifyRequest p r σ) as [[[req|e]|msg] σ1] eqn:Hmod;
    simpl in Hh1, Hp1.
  2: { rewrite (bind_Ret _ _ _ _ _ Hmod). by apply (world_ok_ext σ). }
  2: { rewrite (bind_Panic _ _ _ _ _ Hmod). by apply (world_ok_ext σ). }
  rewrite (bind_Ret _ _ _ _ _ Hmod). cbn beta iota.
  rewrite (bind_Ret _ _ _ _ _ (emit_run _ _)).
  destruct (client_Do req) as [response|e]; [|by apply (world_ok_ext σ)].
  unfold defer.
  set (σa := mkWorld (w σ1) (heap σ1) (pooled σ1) (trace σ1 ++ [EvDo req])).
  assert (world_ok σa) as Hσa by (by apply (world_ok_ext σ)).
  destruct (relay_headers_frame (http.Header_ response) σa) as [Hh2 Hp2].
  destruct (relay_headers (http.Header_ response) σa) as [[[]|msg] σb] eqn:Hrel;
    simpl in Hh2, Hp2.
  2: { rewrite (bind_Panic _ _ _ _ _ Hrel). by apply (world_ok_ext σa). }
  rewrite (bind_Ret _ _ _ _ _ Hrel).
  assert (world_ok σb) as Hσb by (by apply (world_ok_ext σa)).
  destruct (BufferPool4k_Get_ok sched σb Hσb)
    as (b & h1 & pl & buf & HG & Hb & Hlen & Hok & Hnd & Hout).
  rewrite (bind_Ret _ _ _ _ _ HG).
  rewrite (bind_Ret _ _ _ _ _ (io_Copy_run _ _ _)).
  rewrite (bind_Ret _ _ _ _ _ (decode_run _ _ _ _)).
  cbn [w heap pooled trace].
  match goal with |- context [touched gz ?enc ?data b (alter ?f b h1)] =>
    destruct (touched_alter gz enc data b f h1) as [g Hg]; rewrite Hg
  end.
  match goal with |- context [bind (invoke ?e ?ctx) _ ?σc] =>
    destruct (invoke_frame e ctx σc) as (_ & Hp3 & Hh3);
    destruct (invoke e ctx σc) as [[[]|msg] σd] eqn:Hinv
  end; cbn [snd w heap pooled trace exchange.ResponseBody] in Hp3, Hh3.
  - rewrite (bind_Ret _ _ _ _ _ Hinv).
    rewrite (bind_Ret _ _ _ _ _ (emit_run _ _)).
    rewrite (bind_Ret _ _ _ _ _ (emit_run _ _)).
    rewrite BufferPool4k_Put_run. cbn [snd w heap pooled trace].
    apply (world_ok_ext (mkWorld (w σd) (alter bytes.Reset b (heap σd))
                           (b :: pl) []));
      [done|simpl; by rewrite Hp3|].
    destruct Hh3 as [->|(n & b' & Hb' & ->)].
    + by apply (world_ok_after pl h1 b buf).
    + destruct (behind_selected gz
                  (http.Header_Get (http.Header_ response) "Content-Encoding")
                  (unread (alter (filled (http.Body response)) b h1) b) b)
        as [Hs|Hs]; rewrite Hs in Hb'; [|done]. injection Hb' as <-.
      rewrite alter_alter_eq.
      by apply (world_ok_after pl h1 b buf).
  - rewrite (bind_Panic _ _ _ _ _ Hinv). cbn [snd].
    apply (world_ok_ext (mkWorld (w σd) (heap σd) pl [])); [done..|].
    destruct Hh3 as [->|(n & b' & Hb' & ->)].
    + by apply (world_ok_after pl h1 b buf).
    + destruct (behind_selected gz
                  (http.Header_Get (http.Header_ response) "Content-Encoding")
                  (unread (alter (filled (http.Body response)) b h1) b) b)
        as [Hs|Hs]; rewrite Hs in Hb'; [|done]. injection Hb' as <-.
      rewrite alter_alter_eq.
      by apply (world_ok_after pl h1 b buf).
Qed.

Lemma NewHttpProxy_world_ok sched res exe σ :
  world_ok σ → world_ok (NewHttpProxy sched res exe σ).2.
Proof.
  intros Hσ. unfold NewHttpProxy.
  destruct (BufferPool4k_Get_ok sched σ Hσ)
    as (b & h1 & pl & buf & HG & Hb & Hlen & Hok & Hnd & Hout).
  rewrite (bind_Ret _ _ _ _ _ HG). by split.
Qed.

(** Every world the program can be in has its pool in order: the
    hypothesis of the properties of a dispatched request is met on every
    request. *)
Lemma served_world_ok σ : served σ → world_ok σ.
Proof.
  induction 1 as [rw|sched res exe σ _ IH|cd gz sched p r rw σ _ IH].
  - split; [|constructor]. intros a Ha. by apply elem_of_nil in Ha.
  - by apply NewHttpProxy_world_ok.
  - apply ServeHTTP_world_ok. by apply (world_ok_ext σ).
Qed.

End InvariantFacts.

(** ** The properties at work on the fixtures *)

Section Examples.

Import proxy vocabulary fixture.
Local Open Scope list_scope.

Lemma BufferPool_Get_returns_unshared_empty_buffer_witness :
  let ops := [core.Acquire None;
              core.Use 0 (bytes.NewBuffer [Byte.x73; Byte.x65; Byte.x63]);
              core.Release (Some 0)] in
  ∃ p h held,
    core.run ops core.BufferPool4k ∅ (core.owners ∅) = Some (p, h, held)
    ∧ ∃ a p' h' b,
        core.Get (Some 0) p h = Ret (a, p', h') ∧ h' !! a = Some b
        ∧ bytes.Len b = 0 ∧ (a ∉ held) ∧ (a ∉ core.pool p').
Proof.
  intros ops.
  destruct (core.run ops core.BufferPool4k ∅ (core.owners ∅))
    as [[[p h] held]|] eqn:Hrun; [|by vm_compute in Hrun].
  exists p, h, held. split; [done|].
  destruct (BufferPool_Get_returns_unshared_empty_buffer 4096 ∅ h ops p held
              (Some 0) ltac:(lia) Hrun)
    as [(a & p' & h' & b & HG & Hb & Hlen & Hheld & Hpool & _) _].
  by exists a, p', h', b.
Defined.

(** C2 does not hold without the rule on callers.  [Put] does not
    check whether the pointer is in the pool already, so a buffer
    released twice rests there twice.  The next [Get] hands it to a
    borrower, who writes to it; the [Get] after that returns the same
    buffer, three bytes long.  Every step is
    a release, an acquire or a write by the current borrower, and only
    the second release breaks the rule on callers. *)
Lemma released_twice_is_handed_out_twice :
  let written := bytes.NewBuffer [Byte.x73; Byte.x65; Byte.x63] in
  let ops := [core.Acquire None; core.Release (Some 0); core.Release (Some 0);
              core.Acquire (Some 0); core.Use 0 written] in
  (∃ p h p' h' b,
     core.play ops core.BufferPool4k ∅ = Ret (p, h)
     ∧ core.Get (Some 0) p h = Ret (0, p', h')
     ∧ h' !! 0 = Some b ∧ bytes.Len b = 3)
  ∧ core.run ops core.BufferPool4k ∅ (core.owners ∅) = None
  ∧ is_Some (core.run (take 2 ops) core.BufferPool4k ∅ (core.owners ∅)).
Proof.
  vm_compute. split_and!; [|done|by eexists]. by eexists _, _, _, _, _.
Qed.

(** The other way to break the rule: the pool hands out pointers, so a
    caller that goes on writing through a pointer it has released is
    seen by the next borrower. *)
Lemma use_after_release_is_seen :
  let stale := bytes.NewBuffer [Byte.x73; Byte.x65; Byte.x63] in
  let ops := [core.Acquire None; core.Release (Some 0); core.Use 0 stale] in
  (∃ p h p' h' b,
     core.play ops core.BufferPool4k ∅ = Ret (p, h)
     ∧ core.Get (Some 0) p h = Ret (0, p', h')
     ∧ h' !! 0 = Some b ∧ bytes.Len b = 3)
  ∧ core.run ops core.BufferPool4k ∅ (core.owners ∅) = None.
Proof. vm_compute. split; [|done]. by eexists _, _, _, _, _. Qed.

Lemma ServeHTTP_resolution_failure_witness :
  resolver.Get names "bad.example" = Err "no such host"
  ∧ ∃ σ',
      ServeHTTP (origin "identity") gzip_header first_pooled front
        (inbound "bad.example" None) boot = (Ret tt, σ')
      ∧ http.status (w σ') = Some 500%Z
      ∧ pooled σ' = pooled boot
      ∧ ∀ b, acquisitions b (trace σ') = acquisitions b (trace boot).
Proof.
  assert (resolver.Get (resolver front)
            (http.Host (inbound "bad.example" None)) = Err "no such host")
    as Hres by (vm_compute; reflexivity).
  split; [exact Hres|].
  destruct (ServeHTTP_resolution_failure (origin "identity") gzip_header
              first_pooled front (inbound "bad.example" None) boot
              "no such host" Hres eq_refl)
    as (σ' & Hrun & _ & Hst & _ & _ & Hpool & _ & Hacq).
  by exists σ'.
Defined.

(** The hypotheses shared by the examples of a dispatched request. *)
Lemma example_adapted :
  modifyRequest front (inbound "example.com" None) boot
  = (Ret (Ok (adapted None)),
     snd (modifyRequest front (inbound "example.com" None) boot)).
Proof. vm_compute. reflexivity. Qed.

Lemma example_headers encoding :
  Forall (λ kv : string * list string, kv.2 ≠ [])
    [("Content-Encoding", [encoding]); ("X-Trace", ["a"; "b"]);
     ("Content-Type", ["text/plain"])].
Proof. by repeat constructor. Qed.

Lemma example_pool : pool_ok (BufferPool4k boot) (heap boot).
Proof. intros a Ha. by apply elem_of_nil in Ha. Qed.

Lemma ServeHTTP_header_relay_witness :
  let σ' := snd (ServeHTTP (origin "identity") gzip_header first_pooled front
                   (inbound "example.com" None) boot) in
  http.header (w σ') !! "X-Trace" = Some ["ab"]
  ∧ http.header (w σ') !! "Content-Type" = Some ["text/plain"].
Proof.
  assert (NoDup ((λ kv : string * list string,
                    textproto.CanonicalMIMEHeaderKey kv.1)
                   <$> [("Content-Encoding", ["identity"]);
                        ("X-Trace", ["a"; "b"]);
                        ("Content-Type", ["text/plain"])])) as Hnd
    by (apply (bool_decide_unpack _); vm_compute; exact I).
  split.
  - refine (proj2 (ServeHTTP_header_relay (origin "identity") gzip_header
                     first_pooled front (inbound "example.com" None) boot
                     (adapted None) _ (answer "identity") "X-Trace" ["a"; "b"]
                     example_adapted eq_refl (example_headers _) Hnd _) _).
    + cbn [answer http.Header_]. rewrite !elem_of_cons. by eauto.
    + simpl. lia.
  - refine (proj1 (ServeHTTP_header_relay (origin "identity") gzip_header
                     first_pooled front (inbound "example.com" None) boot
                     (adapted None) _ (answer "identity")
                     "Content-Type" ["text/plain"]
                     example_adapted eq_refl (example_headers _) Hnd _)
              "text/plain" eq_refl).
    cbn [answer http.Header_]. rewrite !elem_of_cons. by eauto.
Defined.



(** C9 (the code departs from it).  The origin declares [gzip] and
    sends a body that is no gzip stream; the handler reads the body.
    [gzip.NewReader] refuses, which is logged, and the nil
    [*gzip.Reader] it returned is handed to the handler all the same:
    the read dereferences nil and [ServeHTTP] ends by panic, past its
    last statements.  The decode error has left the decoder.  With the
    same body declared [identity] the same handler returns and so does
    [ServeHTTP]. *)
Theorem ServeHTTP_refused_gzip_panics :
  let serve encoding :=
    ServeHTTP (origin encoding) gzip_header first_pooled reading_front
      (inbound "example.com" None) boot in
  gzip_header (concat payload) = (5, Some "unexpected EOF")
  ∧ fst (serve "gzip") = Panic nil_dereference
  ∧ trace (snd (serve "gzip")) !! 3%nat
    = Some (EvLog Error "gzip.NewReader" [FString "error" "unexpected EOF"])
  ∧ last (trace (snd (serve "gzip"))) = Some EvClose
  ∧ fst (serve "identity") = Ret tt
  ∧ last (trace (snd (serve "identity"))) = Some EvClose.
Proof.
  vm_compute. by split_and!.
Qed.

(** C3 (the code departs from it). The buffer that [NewHttpProxy]
    acquires is kept in a field that nothing reads and is never put
    back: after the constructor and a served request it has been
    acquired once and released not at all, while the buffer of the
    request itself was acquired and released once. *)
Theorem NewHttpProxy_buffer_never_released :
  ∃ p σ1 b,
    NewHttpProxy first_pooled names idle boot = (Ret p, σ1)
    ∧ buffer p = Some b
    ∧ let '(out, σ2) :=
        ServeHTTP (origin "identity") gzip_header first_pooled p
          (inbound "example.com" None) σ1 in
      out = Ret tt
      ∧ acquisitions b (trace σ2) = 1 ∧ releases b (trace σ2) = 0
      ∧ (b ∉ pooled σ2)
      ∧ (∃ b', b' ≠ b ∧ acquisitions b' (trace σ2) = 1
               ∧ releases b' (trace σ2) = 1).
Proof.
  eexists _, _, 0. split; [vm_compute; reflexivity|].
  split; [reflexivity|]. vm_compute.
  split_and!; try done.
  - by intros [?|?%elem_of_nil]%elem_of_cons.
  - exists 1. by split_and!.
Qed.

(** On the constructor alone, for every state: one acquisition, kept in
    [p.buffer], and no release. *)
Lemma NewHttpProxy_acquires sched res exe σ :
  ∃ p b σ',
    NewHttpProxy sched res exe σ = (Ret p, σ')
    ∧ buffer p = Some b
    ∧ trace σ' = trace σ ++ [EvGet b].
Proof.
  destruct (BufferPool4k_Get_run sched σ) as (b & h1 & pl & HG & _).
  unfold NewHttpProxy. rewrite (bind_Ret _ _ _ _ _ HG).
  by eexists _, b, _.
Qed.

(** A second way to lose a buffer: [Put] is not deferred, so a handler
    that panics (here by reading the nil gzip reader) leaves
    [ServeHTTP] past the release, though not past the deferred close of
    the body. *)
Lemma ServeHTTP_panic_skips_release :
  let p := mkHttpProxy greedy names None "http" in
  let '(out, σ') :=
    ServeHTTP (origin "gzip") gzip_header first_pooled p
      (inbound "example.com" None) boot in
  out = Panic nil_dereference
  ∧ acquisitions 0 (trace σ') = 1 ∧ releases 0 (trace σ') = 0
  ∧ last (trace σ') = Some EvClose.
Proof. vm_compute. by split_and!. Qed.

End Examples.

(** ** More on the buffer pool *)

Section MorePoolFacts.

Import core vocabulary.
Local Open Scope list_scope.

(** The first [Get] on a pool of a non-negative size class allocates: the
    buffer is at an address that was not live, it is empty although
    [makeBuffer] built it over [size] zero bytes, its capacity is the size
    class, no other buffer is touched and the pool stays empty. *)
Theorem Get_on_empty_pool_allocates (sz : Z) (pick : option nat)
    (h : gmap addr bytes.Buffer) :
  (0 ≤ sz)%Z →
  ∃ a,
    Get pick (NewBufferPool sz) h
      = Ret (a, NewBufferPool sz, <[a := bytes.mkBuffer [] 0 (Z.to_nat sz)]> h)
    ∧ h !! a = None
    ∧ bytes.Len (bytes.NewBuffer (replicate (Z.to_nat sz) Byte.x00))
      = Z.to_nat sz.
Proof.
  intros Hsz. exists (fresh (dom h)). split_and!.
  - unfold Get, NewBufferPool. cbn [pool size].
    assert (pick ≫= (λ i, ([] : list addr) !! i ≫= (λ b, Some (i, b))) = None)
      as -> by (by destruct pick as [[|i]|]).
    unfold makeBuffer, make. destruct (Z.ltb_spec sz 0) as [?|_]; [lia|].
    rewrite alter_insert_eq. unfold bytes.Reset, bytes.NewBuffer. simpl.
    by rewrite length_replicate.
  - apply not_elem_of_dom, is_fresh.
  - by rewrite Len_NewBuffer, length_replicate.
Qed.

(** A pool made with a negative size is accepted by [NewBufferPool] and
    fails on its first [Get]: [make([]byte, size)] panics. *)
Theorem Get_negative_size_panics (sz : Z) (pick : option nat)
    (h : gmap addr bytes.Buffer) :
  (sz < 0)%Z →
  Get pick (NewBufferPool sz) h = Panic makeslice_len.
Proof.
  intros Hsz. unfold Get, NewBufferPool. cbn [pool size].
  assert (pick ≫= (λ i, ([] : list addr) !! i ≫= (λ b, Some (i, b))) = None)
    as -> by (by destruct pick as [[|i]|]).
  unfold makeBuffer, make. destruct (Z.ltb_spec sz 0) as [_|?]; [done|lia].
Qed.

(** [Put] of a live buffer truncates it in place, keeps its capacity and
    touches no other buffer.  The [Get] that follows, whichever item the
    pool picks, returns the released buffer, one that was pooled before,
    or a fresh one: no order of reuse is promised.  When it is the
    released buffer that comes back, it comes back empty, nothing was
    allocated, and the pool holds what it held before the release. *)
Theorem Put_then_Get_round_trip (p : BufferPool)
    (h : gmap addr bytes.Buffer) (a : addr) (b : bytes.Buffer)
    (pick : option nat) :
  h !! a = Some b → (0 ≤ size p)%Z →
  let '(p1, h1) := Put (Some a) p h in
  h1 !! a = Some (bytes.Reset b)
  ∧ bytes.Len (bytes.Reset b) = 0
  ∧ bytes.Cap (bytes.Reset b) = bytes.Cap b
  ∧ (∀ a', a' ≠ a → h1 !! a' = h !! a')
  ∧ ∃ a2 p2 h2,
      Get pick p1 h1 = Ret (a2, p2, h2)
      ∧ (a2 = a ∨ a2 ∈ pool p ∨ h1 !! a2 = None)
      ∧ (a2 = a →
         h2 = h1 ∧ h2 !! a2 = Some (bytes.Reset b) ∧ pool p2 ≡ₚ pool p).
Proof.
  intros Hb Hsz. cbn [Put].
  assert (alter bytes.Reset a h !! a = Some (bytes.Reset b)) as Hreset
    by (by rewrite lookup_alter_eq, Hb).
  split_and!; try done.
  { intros a' Hne. by rewrite lookup_alter_ne. }
  destruct (Get_cases pick (mkBufferPool (size p) (a :: pool p))
              (alter bytes.Reset a h) Hsz)
    as (a2 & p2 & h2 & HG & _ & Hc).
  exists a2, p2, h2. split; [done|]. cbn [pool size] in Hc.
  destruct Hc as [(i & Hi & -> & ->)|(b2 & -> & -> & Hnone & _)].
  - split.
    + apply list_elem_of_lookup_2, elem_of_cons in Hi as [->|Hin]; auto.
    + intros ->. split_and!; [done..|]. cbn [pool].
      apply delete_Permutation in Hi.
      symmetry. exact (Permutation_cons_inv Hi).
  - split; [auto|]. intros ->. congruence.
Qed.

End MorePoolFacts.

(** ** More on the request adapter *)

Section MoreAdapterFacts.

Import proxy vocabulary.
Local Open Scope list_scope.

(** The adapter rewrites the scheme and the authority of the URL and
    clears [RequestURI]; everything else goes upstream as it came in: the
    method, the headers, the path and the query, the TLS state and the
    [Host] field, which keeps naming the host the client asked for and not
    the resolved address. *)
Theorem modifyRequest_keeps_the_rest p r σ req σ' :
  modifyRequest p r σ = (Ret (Ok req), σ') →
  http.Method req = http.Method r
  ∧ http.rHeader req = http.rHeader r
  ∧ http.Host req = http.Host r
  ∧ http.Path (http.rURL req) = http.Path (http.rURL r)
  ∧ http.RawQuery (http.rURL req) = http.RawQuery (http.rURL r)
  ∧ http.TLS req = http.TLS r
  ∧ http.RequestURI req = ""
  ∧ w σ' = w σ ∧ heap σ' = heap σ ∧ pooled σ' = pooled σ.
Proof.
  intros H. destruct (modifyRequest_Ok_inv _ _ _ _ _ H) as (ip & rest & Hres).
  rewrite (modifyRequest_resolved _ _ _ _ _ Hres) in H.
  by injection H as <- <-.
Qed.

End MoreAdapterFacts.

(** ** More on the proxy engine *)

Section MoreEngineFacts.

Import proxy vocabulary.
Local Open Scope list_scope.

Variable client_Do : http.Request → result http.Response.
Variable gzip_NewReader : list byte → nat * option error.
Variable sched : World → option nat.

Implicit Types (σ : World) (t : list Event).

(** *** Counting events *)

Lemma releases_app b t1 t2 :
  releases b (t1 ++ t2) = releases b t1 + releases b t2.
Proof. unfold releases. by rewrite filter_app, length_app. Qed.

Lemma dispatches_app t1 t2 :
  dispatches (t1 ++ t2) = dispatches t1 + dispatches t2.
Proof. unfold dispatches. by rewrite filter_app, length_app. Qed.

Lemma invocations_app t1 t2 :
  invocations (t1 ++ t2) = invocations t1 + invocations t2.
Proof. unfold invocations. by rewrite filter_app, length_app. Qed.

Lemma decode_log_counts encoding data b :
  acquisitions b (decode_log gzip_NewReader encoding data) = 0
  ∧ releases b (decode_log gzip_NewReader encoding data) = 0
  ∧ dispatches (decode_log gzip_NewReader encoding data) = 0
  ∧ invocations (decode_log gzip_NewReader encoding data) = 0.
Proof.
  unfold decode_log. case_decide; [|done].
  by destruct (gzip_NewReader data) as [n [err|]].
Qed.

Lemma acquisitions_one b b' :
  acquisitions b' [EvGet b] = if decide (b' = b) then 1 else 0.
Proof.
  unfold acquisitions. rewrite filter_cons. simpl.
  case_decide as Hd; apply bool_decide_spec in Hd || rewrite bool_decide_spec in Hd;
    case_decide; subst; done.
Qed.

Lemma releases_one b b' :
  releases b' [EvPut b] = if decide (b' = b) then 1 else 0.
Proof.
  unfold releases. rewrite filter_cons. simpl.
  case_decide as Hd; apply bool_decide_spec in Hd || rewrite bool_decide_spec in Hd;
    case_decide; subst; done.
Qed.

(** *** The paths of [ServeHTTP] that end before a buffer is acquired *)

Lemma ServeHTTP_undispatched p r σ req σ1 err :
  modifyRequest p r σ = (Ret (Ok req), σ1) →
  client_Do req = Err err →
  ServeHTTP client_Do gzip_NewReader sched p r σ
  = (Ret tt,
     mkWorld (http.Error err http.StatusInternalServerError (w σ1))
       (heap σ1) (pooled σ1)
       (trace σ1 ++ [EvDo req;
                     EvLog Error "client do request" [FString "error" err]])).
Proof.
  intros Hmod Hdo. unfold ServeHTTP.
  rewrite (bind_Ret _ _ _ _ _ Hmod). cbn beta iota.
  rewrite (bind_Ret _ _ _ _ _ (emit_run _ _)). rewrite Hdo.
  unfold fail. rewrite (bind_Ret _ _ _ _ _ (emit_run _ _)).
  unfold respond. cbn [w heap pooled trace].
  by rewrite <- app_assoc.
Qed.

Lemma relay_headers_valueless (hd : http.Header) σ :
  Exists (λ kv, kv.2 = []) hd →
  relay_headers hd σ
  = (Panic index_out_of_range,
     mkWorld (relayed (leading hd) (w σ)) (heap σ) (pooled σ) (trace σ)).
Proof.
  revert σ. induction hd as [|[k v] hd IH]; intros σ Hex.
  - by apply Exists_nil in Hex.
  - cbn [relay_headers leading]. destruct (decide (v = [])) as [->|Hv].
    + by destruct σ.
    + apply Exists_cons in Hex as [Hex|Hex]; [done|].
      rewrite (bind_Ret _ _ _ _ _ (relay_header_run k v σ Hv)).
      by rewrite IH.
Qed.

(** *** Acquiring next to buffers that others hold *)

(** [Get] in a world that is in order, seen from a buffer [a] that is
    live and not in the pool: it is not the one handed out, it stays out
    of the pool and it is not touched. *)
Lemma BufferPool4k_Get_held σ :
  world_ok σ →
  ∃ b h1 pl buf,
    BufferPool4k_Get sched σ
      = (Ret b, mkWorld (w σ) h1 pl (trace σ ++ [EvGet b]))
    ∧ h1 !! b = Some buf ∧ bytes.Len buf = 0 ∧ (b ∉ pl)
    ∧ ∀ a, is_Some (heap σ !! a) → a ∉ pooled σ →
           a ≠ b ∧ (a ∉ pl) ∧ h1 !! a = heap σ !! a.
Proof.
  intros [Hok Hnd]. unfold BufferPool4k_Get.
  destruct (Get_cases (sched σ) (BufferPool4k σ) (heap σ)) as
    (b & p' & h' & HG & _ & Hc); [done|].
  rewrite HG.
  destruct Hc as [(i & Hi & -> & ->)|(buf & -> & -> & Hnone & Hlen & _)].
  - simpl in Hi. destruct (NoDup_delete_lookup _ _ _ Hnd Hi) as [_ Hout].
    assert (b ∈ pooled σ) as Hin by (by eapply list_elem_of_lookup_2).
    destruct (Hok b Hin) as (buf & Hbuf & Hlen).
    exists b, (heap σ), (delete i (pooled σ)), buf. split_and!; try done.
    intros a _ Ha. split_and!; [by intros ->| |done].
    intros Ha'. apply Ha. by eapply list_elem_of_delete_inv.
  - exists b, (<[b:=buf]> (heap σ)), (pooled σ), buf.
    assert (b ∉ pooled σ) as Hout.
    { intros Hin. destruct (Hok b Hin) as (? & ? & _). simpl in *. congruence. }
    split_and!; try done; [by rewrite lookup_insert_eq|].
    intros a [x Hx] Ha.
    assert (a ≠ b) as Hne by (intros ->; congruence).
    split_and!; [done..|]. by rewrite lookup_insert_ne.
Qed.

(** *** A dispatched request in a world whose pool is in order *)

Lemma ServeHTTP_dispatched_in_order p r σ req σ1 response :
  modifyRequest p r σ = (Ret (Ok req), σ1) →
  client_Do req = Ok response →
  Forall (λ kv, kv.2 ≠ []) (http.Header_ response) →
  world_ok σ →
  ∃ b h1 pl buf,
    h1 !! b = Some buf ∧ bytes.Len buf = 0 ∧ (b ∉ pl)
    ∧ (∀ a, is_Some (heap σ !! a) → a ∉ pooled σ →
            a ≠ b ∧ (a ∉ pl) ∧ h1 !! a = heap σ !! a)
    ∧ let chunks := http.Body response in
      let h2 := alter (filled chunks) b h1 in
      let encoding := http.Header_Get (http.Header_ response) "Content-Encoding" in
      let hh := touched gzip_NewReader encoding (concat chunks) b h2 in
      let reader := selected gzip_NewReader encoding (concat chunks) b in
      let ctx :=
        exchange.mkContext (snapshot req)
          (exchange.mkResponseHeader
             (http.Header_Get (http.Header_ response) "Content-Type"))
          reader in
      let t := trace σ1 ++ [EvDo req; EvGet b]
               ++ decode_log gzip_NewReader encoding (concat chunks)
               ++ [EvHandler ctx hh] in
      let rw := sent chunks (relayed (http.Header_ response) (w σ)) in
      unread h2 b = concat chunks
      ∧ if handler_panics (execute p) ctx
        then ServeHTTP client_Do gzip_NewReader sched p r σ
             = (Panic nil_dereference, mkWorld rw hh pl (t ++ [EvClose]))
        else ∃ h', ServeHTTP client_Do gzip_NewReader sched p r σ
                   = (Ret tt,
                      mkWorld rw (alter bytes.Reset b h') (b :: pl)
                        (t ++ epilogue req ctx ++ [EvPut b; EvClose]))
                   ∧ ∀ a, a ≠ b → h' !! a = h1 !! a.
Proof.
  intros Hmod Hdo Hne Hσ.
  destruct (modifyRequest_Ok_inv _ _ _ _ _ Hmod) as (ip & rest & Hres).
  pose proof Hmod as Hσ1.
  rewrite (modifyRequest_resolved _ _ _ _ _ Hres) in Hσ1.
  injection Hσ1 as _ Hσ1.
  unfold ServeHTTP. rewrite (bind_Ret _ _ _ _ _ Hmod). cbn beta iota.
  subst σ1.
  rewrite (bind_Ret _ _ _ _ _ (emit_run _ _)). rewrite Hdo.
  unfold defer. cbn [w heap pooled trace].
  rewrite (bind_Ret _ _ _ _ _ (relay_headers_run _ _ Hne)).
  cbn [w heap pooled trace].
  match goal with |- context [bind (BufferPool4k_Get sched) _ ?σb] =>
    assert (world_ok σb) as Hσb by (by apply (world_ok_ext σ));
    destruct (BufferPool4k_Get_held σb Hσb)
      as (b & h1 & pl & buf & HG & Hb & Hlen & Hout & Hheld) end.
  cbn [w heap pooled trace] in HG.
  rewrite (bind_Ret _ _ _ _ _ HG).
  rewrite (bind_Ret _ _ _ _ _ (io_Copy_run _ _ _)).
  cbn [w heap pooled trace].
  rewrite (bind_Ret _ _ _ _ _ (decode_run _ _ _ _)).
  cbn [w heap pooled trace].
  assert (unread (alter (filled (http.Body response)) b h1) b
          = concat (http.Body response)) as Hdata.
  { unfold unread. rewrite lookup_alter_eq, Hb. simpl.
    by rewrite Bytes_filled, (Bytes_empty buf Hlen). }
  rewrite Hdata.
  exists b, h1, pl, buf. do 4 (split; [done|]).
  cbn zeta. split; [exact Hdata|].
  match goal with |- context [bind (invoke ?e ?ctx) _ ?σc] =>
    pose proof (invoke_run e ctx σc) as Hinv;
    destruct (invoke_frame e ctx σc) as (_ & _ & Hfr) end.
  cbn zeta in Hinv. cbn [w heap pooled trace exchange.ResponseBody] in Hinv, Hfr.
  destruct (handler_panics _ _).
  - rewrite (bind_Panic _ _ _ _ _ Hinv). cbn [w heap pooled trace].
    unfold close_body. cbn [w heap pooled trace].
    do 2 f_equal. rewrite <- !app_assoc. reflexivity.
  - destruct Hinv as [h' Hinv]. exists h'. rewrite Hinv in Hfr.
    cbn [snd heap] in Hfr. split.
    2: { intros a Ha. destruct Hfr as [->|(n & b0 & Hb0 & ->)].
         - by rewrite touched_other, lookup_alter_ne.
         - destruct (behind_selected gzip_NewReader
                       (http.Header_Get (http.Header_ response) "Content-Encoding")
                       (concat (http.Body response)) b) as [Hs|Hs];
             rewrite Hs in Hb0; [|done]. injection Hb0 as <-.
           by rewrite lookup_alter_ne, touched_other, lookup_alter_ne. }
    rewrite (bind_Ret _ _ _ _ _ Hinv).
    rewrite (bind_Ret _ _ _ _ _ (emit_run _ _)).
    rewrite (bind_Ret _ _ _ _ _ (emit_run _ _)).
    rewrite BufferPool4k_Put_run. cbn [w heap pooled trace].
    unfold close_body, epilogue. cbn [w heap pooled trace].
    do 2 f_equal. rewrite <- !app_assoc. reflexivity.
Qed.

(** *** No step after the dispatch calls upstream again *)

Lemma quiet_ret {A} (a : A) : appends_no_dispatch (ret a).
Proof. intros σ. exists []. by rewrite app_nil_r. Qed.

Lemma quiet_panic {A} msg : appends_no_dispatch (@panic A msg).
Proof. intros σ. exists []. by rewrite app_nil_r. Qed.

Lemma quiet_bind {A B} (m : M A) (k : A → M B) :
  appends_no_dispatch m → (∀ a, appends_no_dispatch (k a)) →
  appends_no_dispatch (bind m k).
Proof.
  intros Hm Hk σ. unfold bind. destruct (Hm σ) as (t1 & Ht1 & Hd1).
  destruct (m σ) as [[a|msg] σ1]; simpl in Ht1.
  - destruct (Hk a σ1) as (t2 & Ht2 & Hd2). exists (t1 ++ t2).
    by rewrite Ht2, Ht1, app_assoc, dispatches_app, Hd1, Hd2.
  - by exists t1.
Qed.

Lemma quiet_emit e : is_do e = false → appends_no_dispatch (emit e).
Proof.
  intros He σ. exists [e]. split; [done|].
  unfold dispatches. rewrite filter_cons. by rewrite He.
Qed.

Lemma quiet_respond f : appends_no_dispatch (respond f).
Proof. intros σ. exists []. by rewrite app_nil_r. Qed.

Lemma quiet_store f : appends_no_dispatch (store f).
Proof. intros σ. exists []. by rewrite app_nil_r. Qed.

Lemma quiet_Get : appends_no_dispatch (BufferPool4k_Get sched).
Proof.
  intros σ. destruct (BufferPool4k_Get_run sched σ) as (b & h1 & pl & -> & _).
  by exists [EvGet b].
Qed.

Lemma quiet_Put b : appends_no_dispatch (BufferPool4k_Put b).
Proof.
  intros σ. destruct b as [a|]; [by exists [EvPut a]|by exists []].
Qed.

Lemma quiet_relay_headers (hd : http.Header) :
  appends_no_dispatch (relay_headers hd).
Proof.
  induction hd as [|[k v] hd IH]; [apply quiet_ret|].
  apply quiet_bind; [|done]. unfold relay_header.
  destruct (decide (length v < 2)); [destruct (v !! 0)|];
    [apply quiet_respond|apply quiet_panic|apply quiet_respond].
Qed.

Lemma quiet_io_Copy b chunks :
  appends_no_dispatch (io_Copy (MultiWriter_Write b) chunks).
Proof.
  induction chunks as [|c chunks IH]; [apply quiet_ret|].
  apply quiet_bind; [|done].
  apply quiet_bind; auto using quiet_respond, quiet_store.
Qed.

Lemma quiet_decode encoding b :
  appends_no_dispatch (decode gzip_NewReader encoding b).
Proof.
  intros σ. rewrite decode_run. eexists. split; [done|].
  apply decode_log_counts. exact 0.
Qed.

Lemma quiet_invoke e ctx : appends_no_dispatch (invoke e ctx).
Proof.
  intros σ. pose proof (invoke_run e ctx σ) as H. cbn zeta in H.
  destruct (handler_panics e ctx).
  - rewrite H. by eexists [_].
  - destruct H as [h' ->]. by eexists [_].
Qed.

Lemma quiet_defer {A} (m : M A) :
  appends_no_dispatch m → appends_no_dispatch (defer close_body m).
Proof.
  intros Hm σ. unfold defer. destruct (Hm σ) as (t & Ht & Hd).
  destruct (m σ) as [o σ1]. simpl in *. exists (t ++ [EvClose]).
  by rewrite Ht, app_assoc, dispatches_app, Hd.
Qed.

(** *** Properties *)

(** When the upstream call fails, [ServeHTTP] returns at once with a 500
    reply whose body is the transport's error text (the line that
    [http.Error] writes).  The call was made once; no buffer is acquired,
    the handler is not invoked, and there is no response body to close. *)
Theorem ServeHTTP_dispatch_failure p r σ req σ1 err :
  modifyRequest p r σ = (Ret (Ok req), σ1) →
  client_Do req = Err err →
  http.status (w σ) = None →
  ∃ σ',
    ServeHTTP client_Do gzip_NewReader sched p r σ = (Ret tt, σ')
    ∧ http.status (w σ') = Some 500%Z
    ∧ http.body (w σ')
      = http.body (w σ) ++ list_byte_of_string err ++ [Byte.x0a]
    ∧ heap σ' = heap σ
    ∧ pooled σ' = pooled σ
    ∧ trace σ'
      = trace σ1 ++ [EvDo req;
                     EvLog Error "client do request" [FString "error" err]]
    ∧ (∀ b, acquisitions b (trace σ') = acquisitions b (trace σ))
    ∧ invocations (trace σ') = invocations (trace σ).
Proof.
  intros Hmod Hdo Hfresh.
  destruct (modifyRequest_Ok_inv _ _ _ _ _ Hmod) as (ip & rest & Hres).
  pose proof Hmod as Hσ1.
  rewrite (modifyRequest_resolved _ _ _ _ _ Hres) in Hσ1.
  injection Hσ1 as _ Hσ1.
  eexists. split; [by apply ServeHTTP_undispatched|].
  subst σ1. cbn [w heap pooled trace]. split_and!; try done.
  - unfold http.Error, http.Write, http.WriteHeader. simpl. by rewrite Hfresh.
  - unfold http.Error, http.Write, http.WriteHeader.
    cbn [http.body http.Header_Set http.Header_Del].
    by rewrite list_byte_of_string_app.
  - intros b. by rewrite !acquisitions_app, !Nat.add_0_r.
  - by rewrite !invocations_app, !Nat.add_0_r.
Qed.

(** [ServeHTTP] never reads the upstream status code: two origins that
    agree on the headers and the body of every answer (and on every
    failure) lead to the same outcome and the same world, client's status
    line included, whatever status codes they answer with. *)
Theorem ServeHTTP_ignores_StatusCode
    (client_Do' : http.Request → result http.Response) p r σ :
  (∀ req,
     match client_Do req, client_Do' req with
     | Ok r1, Ok r2 =>
         http.Header_ r1 = http.Header_ r2 ∧ http.Body r1 = http.Body r2
     | Err e1, Err e2 => e1 = e2
     | _, _ => False
     end) →
  ServeHTTP client_Do gzip_NewReader sched p r σ
  = ServeHTTP client_Do' gzip_NewReader sched p r σ.
Proof.
  intros Hsame. unfold ServeHTTP, bind.
  destruct (modifyRequest p r σ) as [[[req|e]|msg] σ1]; [|done..].
  destruct (emit (EvDo req) σ1) as [[[]|msg] σ2]; [|done].
  specialize (Hsame req).
  destruct (client_Do req) as [[c1 h1 b1]|e1],
           (client_Do' req) as [[c2 h2 b2]|e2]; try done.
  - simpl in Hsame. by destruct Hsame as [-> ->].
  - by subst.
Qed.

(** An upstream header that has no value makes the header loop index an
    empty slice: [ServeHTTP] panics after setting the headers that came
    before it.  Nothing of the body is sent, no buffer is acquired and
    the handler is not invoked, but the deferred close of the response
    body still runs. *)
Lemma ServeHTTP_valueless_run p r σ req σ1 response :
  modifyRequest p r σ = (Ret (Ok req), σ1) →
  client_Do req = Ok response →
  Exists (λ kv, kv.2 = []) (http.Header_ response) →
  ServeHTTP client_Do gzip_NewReader sched p r σ
  = (Panic index_out_of_range,
     mkWorld (relayed (leading (http.Header_ response)) (w σ))
       (heap σ) (pooled σ) (trace σ1 ++ [EvDo req; EvClose])).
Proof.
  intros Hmod Hdo Hex.
  destruct (modifyRequest_Ok_inv _ _ _ _ _ Hmod) as (ip & rest & Hres).
  pose proof Hmod as Hσ1.
  rewrite (modifyRequest_resolved _ _ _ _ _ Hres) in Hσ1.
  injection Hσ1 as _ Hσ1.
  unfold ServeHTTP. rewrite (bind_Ret _ _ _ _ _ Hmod). cbn beta iota.
  rewrite (bind_Ret _ _ _ _ _ (emit_run _ _)). rewrite Hdo.
  unfold defer.
  rewrite (bind_Panic _ _ _ _ _ (relay_headers_valueless _ _ Hex)).
  subst σ1. unfold close_body. cbn [w heap pooled trace].
  do 2 f_equal. by rewrite <- app_assoc.
Qed.

Theorem ServeHTTP_valueless_header_panics p r σ req σ1 response :
  modifyRequest p r σ = (Ret (Ok req), σ1) →
  client_Do req = Ok response →
  Exists (λ kv, kv.2 = []) (http.Header_ response) →
  ServeHTTP client_Do gzip_NewReader sched p r σ
  = (Panic index_out_of_range,
     mkWorld (relayed (leading (http.Header_ response)) (w σ))
       (heap σ) (pooled σ) (trace σ1 ++ [EvDo req; EvClose]))
  ∧ http.body (relayed (leading (http.Header_ response)) (w σ))
    = http.body (w σ)
  ∧ http.status (relayed (leading (http.Header_ response)) (w σ))
    = http.status (w σ).
Proof.
  intros Hmod Hdo Hex.
  split; [by apply ServeHTTP_valueless_run|].
  by rewrite relayed_body, relayed_status.
Qed.





Lemma quiet_after_dispatch p req response :
  appends_no_dispatch
    (defer close_body (
       relay_headers (http.Header_ response) ;;;
       buffer <~ BufferPool4k_Get sched ;;
       io_Copy (MultiWriter_Write buffer) (http.Body response) ;;;
       reader <~ decode gzip_NewReader
                   (http.Header_Get (http.Header_ response) "Content-Encoding")
                   buffer ;;
       let reqHeader := snapshot req in
       let resHeader :=
         exchange.mkResponseHeader
           (http.Header_Get (http.Header_ response) "Content-Type") in
       let proxyCtx := exchange.mkContext reqHeader resHeader reader in
       invoke (execute p) proxyCtx ;;;
       emit (EvLog Debug "origin request header" [FRequest "req" req]) ;;;
       emit (EvLog Info "proxyCtx"
               [FBool "https" (exchange.isHTTPS reqHeader);
                FString "Content-Type" (exchange.responseContentType resHeader);
                FString "host" (exchange.host reqHeader);
                FString "method" (exchange.method reqHeader);
                FString "url" (exchange.requestURI reqHeader)]) ;;;
       BufferPool4k_Put (Some buffer))).
Proof.
  apply quiet_defer.
  apply quiet_bind; [apply quiet_relay_headers|intros _].
  apply quiet_bind; [apply quiet_Get|intros b].
  apply quiet_bind; [apply quiet_io_Copy|intros _].
  apply quiet_bind; [apply quiet_decode|intros reader].
  cbn zeta.
  apply quiet_bind; [apply quiet_invoke|intros _].
  apply quiet_bind; [by apply quiet_emit|intros _].
  apply quiet_bind; [by apply quiet_emit|intros _].
  apply quiet_Put.
Qed.

(** One upstream attempt per request, on every path.  When the adapter
    produces a request, [ServeHTTP] calls upstream exactly once, with
    that request, whatever happens afterwards (a failed call, a panic in
    the header loop or in the handler, a normal return); when the adapter
    fails or panics, upstream is not called at all. *)
Theorem ServeHTTP_dispatches_once p r σ :
  let σ' := snd (ServeHTTP client_Do gzip_NewReader sched p r σ) in
  match fst (modifyRequest p r σ) with
  | Ret (Ok req) =>
      ∃ t1 t2, trace σ' = trace σ ++ t1 ++ EvDo req :: t2
               ∧ dispatches t1 = 0 ∧ dispatches t2 = 0
  | _ => ∃ t, trace σ' = trace σ ++ t ∧ dispatches t = 0
  end.
Proof.
  intros σ'. subst σ'. unfold ServeHTTP.
  destruct (modifyRequest p r σ) as [[[req|e]|msg] σ1] eqn:Hmod; cbn [fst].
  - rewrite (bind_Ret _ _ _ _ _ Hmod). cbn beta iota.
    destruct (modifyRequest_Ok_inv _ _ _ _ _ Hmod) as (ip & rest & Hres).
    rewrite (modifyRequest_resolved _ _ _ _ _ Hres) in Hmod.
    injection Hmod as _ <-.
    rewrite (bind_Ret _ _ _ _ _ (emit_run _ _)). cbn [w heap pooled trace].
    exists [EvLog Debug "resolver request host"
              [FString "host" (http.Host r); FStrings "ip" (ip :: rest)]].
    destruct (client_Do req) as [response|err].
    + match goal with |- context [snd (?m ?σa)] =>
        destruct (quiet_after_dispatch p req response σa) as (t & Ht & Hd)
      end.
      exists t. split_and!; [|done..].
      etrans; [exact Ht|]. cbn [trace]. by rewrite <- !app_assoc.
    + exists [EvLog Error "client do request" [FString "error" err]].
      unfold fail.
      rewrite (bind_Ret _ _ _ _ _ (emit_run _ _)). cbn [snd trace respond].
      split_and!; [|done..]. by rewrite <- !app_assoc.
  - rewrite (bind_Ret _ _ _ _ _ Hmod). cbn beta iota.
    unfold modifyRequest, Clone in Hmod.
    destruct (resolver.Get _ _) as [ips|err]; [by destruct ips|].
    injection Hmod as _ <-. by eexists [_].
  - rewrite (bind_Panic _ _ _ _ _ Hmod). cbn [snd].
    unfold modifyRequest, Clone in Hmod.
    destruct (resolver.Get _ _) as [[|ip rest]|err]; [|done..].
    injection Hmod as _ <-. by eexists [_].
Qed.

(** [Put] is the last statement of [ServeHTTP] and is not deferred: when
    the response declares [gzip], the body is refused by
    [gzip.NewReader] and the handler reads the body all the same, the
    read dereferences nil and [ServeHTTP] is left by the panic.  The
    deferred close still runs, but the buffer acquired for the request
    is not released and is not in the pool afterwards. *)
Theorem ServeHTTP_handler_panic_keeps_buffer p r σ req σ1 response n err :
  modifyRequest p r σ = (Ret (Ok req), σ1) →
  client_Do req = Ok response →
  Forall (λ kv, kv.2 ≠ []) (http.Header_ response) →
  world_ok σ →
  http.Header_Get (http.Header_ response) "Content-Encoding" = "gzip" →
  gzip_NewReader (concat (http.Body response)) = (n, Some err) →
  (∀ ctx, is_Some (executor.Handler (execute p) ctx)) →
  ∃ b σ',
    ServeHTTP client_Do gzip_NewReader sched p r σ
    = (Panic nil_dereference, σ')
    ∧ acquisitions b (trace σ') = acquisitions b (trace σ) + 1
    ∧ (∀ b', releases b' (trace σ') = releases b' (trace σ))
    ∧ (b ∉ pooled σ')
    ∧ last (trace σ') = Some EvClose.
Proof.
  intros Hmod Hdo Hne Hσ Henc Hgz Hreads.
  destruct (ServeHTTP_dispatched_in_order p r σ req σ1 response
              Hmod Hdo Hne Hσ) as (b & h1 & pl & buf & _ & _ & Hout & _ & Hrun).
  cbn zeta in Hrun. destruct Hrun as [_ Hrun]. rewrite Henc in Hrun.
  assert (selected gzip_NewReader "gzip" (concat (http.Body response)) b
          = exchange.GzipReader None) as Hsel.
  { unfold selected. rewrite decide_False by done.
    rewrite decide_True by done. by rewrite Hgz. }
  assert (decode_log gzip_NewReader "gzip" (concat (http.Body response))
          = [EvLog Error "gzip.NewReader" [FString "error" err]]) as Hlog.
  { unfold decode_log. rewrite decide_True by done. by rewrite Hgz. }
  rewrite Hsel, Hlog in Hrun.
  match type of Hrun with context [handler_panics ?e ?ctx] =>
    assert (handler_panics e ctx = true) as Hp
      by (unfold handler_panics; by destruct (Hreads ctx) as [m ->]) end.
  rewrite Hp in Hrun. exists b. eexists. split; [exact Hrun|].
  destruct (modifyRequest_Ok_inv _ _ _ _ _ Hmod) as (ip & rest & Hres).
  pose proof Hmod as Hσ1.
  rewrite (modifyRequest_resolved _ _ _ _ _ Hres) in Hσ1.
  injection Hσ1 as _ Hσ1. subst σ1.
  cbn [w heap pooled trace]. split_and!.
  - rewrite !acquisitions_app.
    change [EvDo req; EvGet b] with ([EvDo req] ++ [EvGet b]).
    rewrite acquisitions_app, acquisitions_one, decide_True by done.
    unfold acquisitions. simpl. lia.
  - intros b'. rewrite !releases_app. unfold releases. simpl. lia.
  - done.
  - rewrite !app_assoc. apply last_snoc.
Qed.

(** *** Buffers held by others *)

Lemma modifyRequest_logs p r σ :
  w (modifyRequest p r σ).2 = w σ
  ∧ heap (modifyRequest p r σ).2 = heap σ
  ∧ pooled (modifyRequest p r σ).2 = pooled σ
  ∧ ∃ t, trace (modifyRequest p r σ).2 = trace σ ++ t
         ∧ ∀ a, acquisitions a t = 0 ∧ releases a t = 0.
Proof.
  unfold modifyRequest, Clone.
  destruct (resolver.Get _ _) as [[|ip rest]|e]; simpl; split_and!; try done.
  - by eexists [_].
  - by eexists [_].
  - exists []. by rewrite app_nil_r.
Qed.

Lemma ServeHTTP_held_frame p r σ a :
  world_ok σ → is_Some (heap σ !! a) → a ∉ pooled σ →
  let σ' := snd (ServeHTTP client_Do gzip_NewReader sched p r σ) in
  heap σ' !! a = heap σ !! a ∧ (a ∉ pooled σ')
  ∧ acquisitions a (trace σ') = acquisitions a (trace σ)
  ∧ releases a (trace σ') = releases a (trace σ).
Proof.
  intros Hσ Hlive Hout σ'.
  subst σ'.
  destruct (modifyRequest_logs p r σ) as (Hw1 & Hh1 & Hp1 & t1 & Ht1 & Hc1).
  destruct (modifyRequest p r σ) as [[[req|e]|msg] σ1] eqn:Hmod;
    cbn [snd] in Hw1, Hh1, Hp1, Ht1.
  - destruct (client_Do req) as [response|err] eqn:Hdo.
    + destruct (decide (Forall (λ kv : string * list string, kv.2 ≠ [])
                          (http.Header_ response))) as [Hne|Hex].
      * destruct (ServeHTTP_dispatched_in_order p r σ req σ1 response
                    Hmod Hdo Hne Hσ)
          as (b & h1 & pl & buf & _ & _ & _ & Hheld & Hrun).
        destruct (Hheld a Hlive Hout) as (Hab & Hapl & Hah1).
        cbn zeta in Hrun. destruct Hrun as [_ Hrun].
        pose proof (decode_log_counts
                      (http.Header_Get (http.Header_ response) "Content-Encoding")
                      (concat (http.Body response)) a) as (Hz1 & Hz2 & _).
        destruct (handler_panics _ _).
        -- rewrite Hrun. cbn [snd w heap pooled trace]. split_and!.
           ++ by rewrite touched_other, lookup_alter_ne.
           ++ done.
           ++ rewrite Ht1, !acquisitions_app, Hz1, (proj1 (Hc1 a)).
              change [EvDo req; EvGet b] with ([EvDo req] ++ [EvGet b]).
              rewrite acquisitions_app, acquisitions_one, decide_False by done.
              unfold acquisitions. simpl. lia.
           ++ rewrite Ht1, !releases_app, Hz2, (proj2 (Hc1 a)).
              unfold releases. simpl. lia.
        -- destruct Hrun as (h' & Hrun & Hh'). rewrite Hrun.
           cbn [snd w heap pooled trace]. split_and!.
           ++ rewrite lookup_alter_ne by done. by rewrite Hh'.
           ++ rewrite not_elem_of_cons. by split.
           ++ rewrite Ht1, !acquisitions_app, Hz1, (proj1 (Hc1 a)).
              change [EvDo req; EvGet b] with ([EvDo req] ++ [EvGet b]).
              rewrite acquisitions_app, acquisitions_one, decide_False by done.
              unfold epilogue, acquisitions. simpl. lia.
           ++ rewrite Ht1, !releases_app, Hz2, (proj2 (Hc1 a)).
              change [EvPut b; EvClose] with ([EvPut b] ++ [EvClose]).
              rewrite releases_app, releases_one, decide_False by done.
              unfold epilogue, releases. simpl. lia.
      * apply not_Forall_Exists in Hex; [|apply _].
        assert (Exists (λ kv : string * list string, kv.2 = [])
                  (http.Header_ response)) as Hex'.
        { eapply Exists_impl; [exact Hex|]. intros [k v] Hv. simpl in *.
          by destruct v; [|exfalso; apply Hv]. }
        rewrite (ServeHTTP_valueless_run p r σ req σ1 response Hmod Hdo Hex').
        cbn [snd w heap pooled trace]. split_and!; try done.
        -- rewrite Ht1, !acquisitions_app, (proj1 (Hc1 a)).
           unfold acquisitions. simpl. lia.
        -- rewrite Ht1, !releases_app, (proj2 (Hc1 a)).
           unfold releases. simpl. lia.
    + rewrite (ServeHTTP_undispatched p r σ req σ1 err Hmod Hdo).
      cbn [snd w heap pooled trace]. rewrite Hh1, Hp1. split_and!; try done.
      * rewrite Ht1, !acquisitions_app, (proj1 (Hc1 a)).
        unfold acquisitions. simpl. lia.
      * rewrite Ht1, !releases_app, (proj2 (Hc1 a)).
        unfold releases. simpl. lia.
  - unfold ServeHTTP. rewrite (bind_Ret _ _ _ _ _ Hmod).
    cbn [snd w heap pooled trace fail bind emit respond].
    rewrite Hh1, Hp1. split_and!; try done.
    * rewrite Ht1, !acquisitions_app, (proj1 (Hc1 a)).
      unfold acquisitions. simpl. lia.
    * rewrite Ht1, !releases_app, (proj2 (Hc1 a)).
      unfold releases. simpl. lia.
  - unfold ServeHTTP. rewrite (bind_Panic _ _ _ _ _ Hmod). cbn [snd].
    rewrite Hh1, Hp1. split_and!; try done.
    * by rewrite Ht1, !acquisitions_app, (proj1 (Hc1 a)), Nat.add_0_r.
    * by rewrite Ht1, !releases_app, (proj2 (Hc1 a)), Nat.add_0_r.
Qed.

(** A request leaves alone every buffer that someone else holds, on
    every path: such a buffer is not the one the request acquires, its
    content is untouched, it is not put into the pool and no release of
    it is recorded. *)
Theorem ServeHTTP_leaves_held_buffers p r σ a :
  world_ok σ → held a σ →
  let σ' := snd (ServeHTTP client_Do gzip_NewReader sched p r σ) in
  heap σ' !! a = heap σ !! a
  ∧ held a σ'
  ∧ acquisitions a (trace σ') = acquisitions a (trace σ)
  ∧ releases a (trace σ') = releases a (trace σ).
Proof.
  intros Hσ [Hlive Hout] σ'.
  destruct (ServeHTTP_held_frame p r σ a Hσ Hlive Hout) as (H1 & H2 & H3 & H4).
  split_and!; try done. split; [|done]. subst σ'. by rewrite H1.
Qed.

End MoreEngineFacts.

(** ** Across requests *)

Section MoreWorldFacts.

Import proxy vocabulary.
Local Open Scope list_scope.

Implicit Types (σ : World).

Lemma NewHttpProxy_run sched res exe σ :
  world_ok σ →
  ∃ b h1 pl buf,
    NewHttpProxy sched res exe σ
    = (Ret (mkHttpProxy exe res (Some b) "http"),
       mkWorld (w σ) h1 pl (trace σ ++ [EvGet b]))
    ∧ h1 !! b = Some buf ∧ bytes.Len buf = 0 ∧ (b ∉ pl)
    ∧ ∀ a, is_Some (heap σ !! a) → a ∉ pooled σ →
           a ≠ b ∧ (a ∉ pl) ∧ h1 !! a = heap σ !! a.
Proof.
  intros Hσ.
  destruct (BufferPool4k_Get_held sched σ Hσ)
    as (b & h1 & pl & buf & HG & Hrest).
  exists b, h1, pl, buf. split; [|done].
  unfold NewHttpProxy. by rewrite (bind_Ret _ _ _ _ _ HG).
Qed.

Lemma later_world_ok σ0 σ : world_ok σ0 → later σ0 σ → world_ok σ.
Proof.
  intros H0. induction 1 as [|sched res exe σ _ IH|cd gz sched p r rw σ _ IH].
  - done.
  - by apply NewHttpProxy_world_ok.
  - apply ServeHTTP_world_ok. by apply (world_ok_ext σ).
Qed.

Lemma later_held_frame σ0 σ a :
  world_ok σ0 → is_Some (heap σ0 !! a) → a ∉ pooled σ0 → later σ0 σ →
  heap σ !! a = heap σ0 !! a ∧ (a ∉ pooled σ)
  ∧ acquisitions a (trace σ) = acquisitions a (trace σ0)
  ∧ releases a (trace σ) = releases a (trace σ0).
Proof.
  intros H0 Hlive Hout Hlater.
  induction Hlater as [|sched res exe σ Hl IH|cd gz sched p r rw σ Hl IH].
  - done.
  - destruct IH as (Hh & Hp & Hacq & Hrel).
    pose proof (later_world_ok σ0 σ H0 Hl) as Hσ.
    destruct (NewHttpProxy_run sched res exe σ Hσ)
      as (b & h1 & pl & buf & -> & _ & _ & _ & Hheld).
    destruct (Hheld a) as (Hab & Hapl & Hah1); [by rewrite Hh|done|].
    cbn [snd heap pooled trace]. split_and!; try done.
    + by rewrite Hah1.
    + rewrite acquisitions_app, acquisitions_one, decide_False by done. lia.
    + rewrite releases_app. unfold releases at 2. simpl. lia.
  - destruct IH as (Hh & Hp & Hacq & Hrel).
    pose proof (later_world_ok σ0 σ H0 Hl) as Hσ.
    set (σr := mkWorld rw (heap σ) (pooled σ) (trace σ)).
    assert (world_ok σr) as Hσr by (by apply (world_ok_ext σ)).
    destruct (ServeHTTP_held_frame cd gz sched p r σr a Hσr)
      as (H1 & H2 & H3 & H4); [by rewrite <- Hh in Hlive|done|].
    cbn zeta in *. split_and!; try done.
    + by rewrite H1.
    + by rewrite H3.
    + by rewrite H4.
Qed.

(** The constructor always returns a proxy: it keeps the resolver and
    the handler it was given and holds a buffer acquired from the 4K
    pool, live, empty and no longer in the pool.  The acquisition is all
    the constructor does: nothing is sent and nothing is released. *)
Theorem NewHttpProxy_returns sched res exe σ :
  world_ok σ →
  ∃ p b buf σ',
    NewHttpProxy sched res exe σ = (Ret p, σ')
    ∧ execute p = exe ∧ resolver p = res ∧ buffer p = Some b
    ∧ heap σ' !! b = Some buf ∧ bytes.Len buf = 0
    ∧ held b σ'
    ∧ trace σ' = trace σ ++ [EvGet b]
    ∧ w σ' = w σ
    ∧ world_ok σ'.
Proof.
  intros Hσ.
  pose proof (NewHttpProxy_world_ok sched res exe σ Hσ) as Hσ'.
  destruct (NewHttpProxy_run sched res exe σ Hσ)
    as (b & h1 & pl & buf & Hrun & Hb & Hlen & Hout & _).
  rewrite Hrun in Hσ'. eexists _, b, buf, _. split; [exact Hrun|].
  by split_and!.
Qed.

(** The buffer a proxy is constructed with is never used and never given
    back.  Whatever proxies are constructed and whatever requests are
    served afterwards, by this proxy or by others, on whatever paths,
    that buffer stays live and out of the pool with the content it had,
    is acquired by no request, and no release of it is ever recorded. *)
Theorem constructor_buffer_is_never_released sched res exe σ0 p σ1 σ :
  world_ok σ0 →
  NewHttpProxy sched res exe σ0 = (Ret p, σ1) →
  later σ1 σ →
  ∃ b, buffer p = Some b
       ∧ held b σ
       ∧ heap σ !! b = heap σ1 !! b
       ∧ acquisitions b (trace σ) = acquisitions b (trace σ0) + 1
       ∧ releases b (trace σ) = releases b (trace σ0).
Proof.
  intros H0 Hnew Hlater.
  pose proof (NewHttpProxy_world_ok sched res exe σ0 H0) as H1.
  destruct (NewHttpProxy_run sched res exe σ0 H0)
    as (b & h1 & pl & buf & Hrun & Hb & Hlen & Hout & _).
  rewrite Hrun in H1, Hnew. injection Hnew as <- <-. cbn [snd] in H1.
  destruct (later_held_frame _ σ b H1) as (Hh & Hp & Hacq & Hrel);
    [by exists buf|done|done|].
  cbn [heap pooled trace] in *. exists b. split_and!; try done.
  - split; [|done]. rewrite Hh, Hb. by eexists.
  - rewrite Hacq, acquisitions_app, acquisitions_one, decide_True by done. lia.
  - rewrite Hrel, releases_app. unfold releases at 2. simpl. lia.
Qed.

(** In every world the program reaches from start-up by constructing
    proxies and serving requests, whichever way the requests ended, the
    pooled buffers are live, empty and listed once; so the next
    acquisition hands out an empty buffer and takes it out of the pool. *)
Theorem served_pool_in_order σ sched :
  served σ →
  (∀ a, a ∈ pooled σ → ∃ buf, heap σ !! a = Some buf ∧ bytes.Len buf = 0)
  ∧ NoDup (pooled σ)
  ∧ ∃ b h1 pl buf,
      BufferPool4k_Get sched σ
        = (Ret b, mkWorld (w σ) h1 pl (trace σ ++ [EvGet b]))
      ∧ h1 !! b = Some buf ∧ bytes.Len buf = 0 ∧ (b ∉ pl).
Proof.
  intros Hs. pose proof (served_world_ok σ Hs) as Hσ.
  destruct (Hσ) as [Hok Hnd]. split_and!; [exact Hok|done|].
  destruct (BufferPool4k_Get_ok sched σ Hσ)
    as (b & h1 & pl & buf & HG & Hb & Hlen & _ & _ & Hout).
  by exists b, h1, pl, buf.
Qed.

End MoreWorldFacts.

(** ** The further properties at work on the fixtures *)

Section MoreExamples.

Import proxy vocabulary fixture.
Local Open Scope list_scope.

Lemma Get_on_empty_pool_allocates_witness :
  ∃ a, core.Get None core.BufferPool4k ∅
       = Ret (a, core.BufferPool4k, <[a := bytes.mkBuffer [] 0 4096]> ∅).
Proof.
  destruct (Get_on_empty_pool_allocates 4096 None ∅ ltac:(lia))
    as (a & Hrun & _).
  by exists a.
Defined.

Lemma Get_negative_size_panics_witness :
  core.Get None (core.NewBufferPool (-1)) ∅ = Panic makeslice_len.
Proof. exact (Get_negative_size_panics (-1) None ∅ ltac:(lia)). Defined.

Lemma Put_then_Get_round_trip_witness :
  let used := bytes.NewBuffer [Byte.x73; Byte.x65; Byte.x63] in
  let h : gmap core.addr bytes.Buffer := {[ 7 := used ]} in
  let '(p1, h1) := core.Put (Some 7) core.BufferPool4k h in
  h1 !! 7 = Some (bytes.mkBuffer [] 0 3)
  ∧ ∃ a2 p2 h2,
      core.Get (Some 0) p1 h1 = Ret (a2, p2, h2)
      ∧ (a2 = 7 → h2 = h1 ∧ core.pool p2 ≡ₚ []).
Proof.
  intros used h.
  pose proof (Put_then_Get_round_trip core.BufferPool4k h 7 used (Some 0)
                ltac:(vm_compute; reflexivity) ltac:(vm_compute; discriminate))
    as H.
  cbn [core.Put] in *.
  destruct H as (Hb & _ & _ & _ & a2 & p2 & h2 & HG & _ & Hsame).
  split; [exact Hb|]. exists a2, p2, h2. split; [exact HG|].
  intros Ha. destruct (Hsame Ha) as (Hh & _ & Hp). by split.
Defined.

Lemma modifyRequest_keeps_the_rest_witness :
  let r := inbound "example.com" None in
  http.Host (adapted None) = "example.com"
  ∧ http.RequestURI (adapted None) = ""
  ∧ http.rHeader (adapted None) = http.rHeader r.
Proof.
  intros r.
  destruct (modifyRequest_keeps_the_rest front r boot (adapted None) _
              example_adapted)
    as (_ & Hhd & Hhost & _ & _ & _ & Huri & _).
  by split_and!.
Defined.

Lemma example_world_ok : world_ok boot.
Proof. split; [apply example_pool|constructor]. Qed.

Lemma ServeHTTP_dispatch_failure_witness :
  ∃ σ',
    ServeHTTP unreachable gzip_header first_pooled front
      (inbound "example.com" None) boot = (Ret tt, σ')
    ∧ http.status (w σ') = Some 500%Z
    ∧ pooled σ' = pooled boot
    ∧ invocations (trace σ') = invocations (trace boot).
Proof.
  destruct (ServeHTTP_dispatch_failure unreachable gzip_header first_pooled
              front (inbound "example.com" None) boot (adapted None) _
              "dial tcp 10.0.0.1:80: connect: connection refused"
              example_adapted eq_refl eq_refl)
    as (σ' & Hrun & Hst & _ & _ & Hpool & _ & _ & Hinv).
  by exists σ'.
Defined.

Lemma ServeHTTP_ignores_StatusCode_witness :
  http.StatusCode (answer "identity") ≠ http.StatusCode not_found
  ∧ ServeHTTP (reply (answer "identity")) gzip_header first_pooled front
      (inbound "example.com" None) boot
    = ServeHTTP (reply not_found) gzip_header first_pooled front
        (inbound "example.com" None) boot.
Proof.
  split; [done|].
  apply (ServeHTTP_ignores_StatusCode (reply (answer "identity")) gzip_header
           first_pooled (reply not_found) front
           (inbound "example.com" None) boot).
  intros req. simpl. by split.
Defined.

Lemma ServeHTTP_valueless_header_panics_witness :
  fst (ServeHTTP (reply valueless) gzip_header first_pooled front
         (inbound "example.com" None) boot) = Panic index_out_of_range
  ∧ pooled (snd (ServeHTTP (reply valueless) gzip_header first_pooled front
                   (inbound "example.com" None) boot)) = [].
Proof.
  destruct (ServeHTTP_valueless_header_panics (reply valueless) gzip_header
              first_pooled front (inbound "example.com" None) boot
              (adapted None) _ valueless example_adapted eq_refl)
    as (Hrun & _).
  - cbn [valueless http.Header_]. apply Exists_cons_tl, Exists_cons_hd.
    reflexivity.
  - by rewrite Hrun.
Defined.





Lemma ServeHTTP_handler_panic_keeps_buffer_witness :
  ∃ b σ',
    ServeHTTP (origin "gzip") gzip_header first_pooled reading_front
      (inbound "example.com" None) boot = (Panic nil_dereference, σ')
    ∧ acquisitions b (trace σ') = 1
    ∧ releases b (trace σ') = 0
    ∧ b ∉ pooled σ'.
Proof.
  destruct (ServeHTTP_handler_panic_keeps_buffer (origin "gzip") gzip_header
              first_pooled reading_front (inbound "example.com" None) boot
              (adapted None) _ (answer "gzip") 5 "unexpected EOF"
              ltac:(vm_compute; reflexivity) eq_refl (example_headers _)
              example_world_ok ltac:(vm_compute; reflexivity) eq_refl
              (λ _, mk_is_Some _ _ eq_refl))
    as (b & σ' & Hrun & Hacq & Hrel & Hout & _).
  exists b, σ'. split; [exact Hrun|]. split; [exact Hacq|].
  split; [exact (Hrel b)|exact Hout].
Defined.

(** The world after a proxy was constructed at start-up. *)
Lemma example_constructed :
  ∃ σ1, NewHttpProxy first_pooled names idle boot
        = (Ret (mkHttpProxy idle names (Some 0) "http"), σ1)
        ∧ world_ok σ1 ∧ held 0 σ1.
Proof.
  destruct (NewHttpProxy first_pooled names idle boot) as [o σ1] eqn:Hnew.
  exists σ1. assert (o = Ret (mkHttpProxy idle names (Some 0) "http")) as ->
    by (by vm_compute in Hnew; injection Hnew as <- _).
  split; [done|].
  pose proof (NewHttpProxy_world_ok first_pooled names idle boot
                example_world_ok) as Hok. rewrite Hnew in Hok.
  split; [done|]. vm_compute in Hnew. injection Hnew as <-. split.
  - by eexists.
  - by intros ?%elem_of_nil.
Qed.

Lemma ServeHTTP_leaves_held_buffers_witness :
  ∃ σ1, held 0 σ1
        ∧ held 0 (snd (ServeHTTP (origin "identity") gzip_header first_pooled
                         front (inbound "example.com" None) σ1))
        ∧ releases 0 (trace (snd (ServeHTTP (origin "identity") gzip_header
                                    first_pooled front
                                    (inbound "example.com" None) σ1)))
          = releases 0 (trace σ1).
Proof.
  destruct example_constructed as (σ1 & _ & Hok & Hheld).
  exists σ1. split; [done|].
  destruct (ServeHTTP_leaves_held_buffers (origin "identity") gzip_header
              first_pooled front (inbound "example.com" None) σ1 0 Hok Hheld)
    as (_ & Hheld' & _ & Hrel).
  split; [exact Hheld'|exact Hrel].
Defined.

Lemma NewHttpProxy_returns_witness :
  ∃ p b σ',
    NewHttpProxy first_pooled names idle boot = (Ret p, σ')
    ∧ buffer p = Some b ∧ held b σ' ∧ trace σ' = [EvGet b].
Proof.
  destruct (NewHttpProxy_returns first_pooled names idle boot
              example_world_ok)
    as (p & b & buf & σ' & Hrun & _ & _ & Hbuf & _ & _ & Hheld & Htrace & _).
  exists p, b, σ'. split; [exact Hrun|]. split; [exact Hbuf|].
  split; [exact Hheld|exact Htrace].
Defined.

Lemma constructor_buffer_is_never_released_witness :
  ∃ σ1 σ2,
    NewHttpProxy first_pooled names idle boot
    = (Ret (mkHttpProxy idle names (Some 0) "http"), σ1)
    ∧ σ2 = snd (ServeHTTP (origin "gzip") gzip_header first_pooled
                  reading_front (inbound "example.com" None)
                  (mkWorld http.NewRecorder (heap σ1) (pooled σ1) (trace σ1)))
    ∧ held 0 σ2
    ∧ acquisitions 0 (trace σ2) = 1
    ∧ releases 0 (trace σ2) = 0.
Proof.
  destruct example_constructed as (σ1 & Hnew & _ & _).
  eexists σ1, _. split; [exact Hnew|]. split; [reflexivity|].
  destruct (constructor_buffer_is_never_released first_pooled names idle boot
              _ σ1 _ example_world_ok Hnew
              (later_request σ1 (origin "gzip") gzip_header first_pooled
                 reading_front (inbound "example.com" None) http.NewRecorder
                 σ1 (later_now σ1)))
    as (b & Hb & Hheld & _ & Hacq & Hrel).
  injection Hb as <-. split; [exact Hheld|]. split; [exact Hacq|exact Hrel].
Defined.

Lemma served_pool_in_order_witness :
  let σ := snd (ServeHTTP (origin "gzip") gzip_header first_pooled
                  reading_front (inbound "example.com" None) boot) in
  NoDup (pooled σ)
  ∧ ∃ b h1 pl buf,
      BufferPool4k_Get first_pooled σ
      = (Ret b, mkWorld (w σ) h1 pl (trace σ ++ [EvGet b]))
      ∧ h1 !! b = Some buf ∧ bytes.Len buf = 0.
Proof.
  intros σ.
  destruct (served_pool_in_order σ first_pooled) as (_ & Hnd & Hget).
  - exact (served_request (origin "gzip") gzip_header first_pooled
             reading_front (inbound "example.com" None) http.NewRecorder
             boot (served_boot http.NewRecorder)).
  - split; [exact Hnd|].
    destruct Hget as (b & h1 & pl & buf & HG & Hb & Hlen & _).
    exists b, h1, pl, buf. split; [exact HG|]. split; [exact Hb|exact Hlen].
Defined.

End MoreExamples.
